(** * A shallow embedding of the Unimed product scraper

    The repository holds four generations of one Puppeteer script:

    - variant A ([src/unimed-scraper.js], first listing): retrying
      [scrapeProduct], browser restart every [BATCH_SIZE] targets;
    - variant B ([src/unimed-scraper.js], second listing): one attempt per
      target, no restart (its extraction callback is the one of variant A);
    - variant C ([src/unnamed/part_000], first listing): one attempt, image
      collection through a [Set], a date-partitioned error log;
    - variant D ([src/unnamed/part_000], second listing): the loop of
      variant A, sections rendered as HTML tables, an [id] per record.

    Strings are sequences of code units below 256 (Latin-1); the rendered
    page is the record of what the DOM queries of the script return; the
    browser is an oracle answering each navigation, the file system one
    answering each [appendFileSync]; [writeFileSync] is taken to succeed. *)

From Stdlib Require Import String Ascii List Arith PeanoNat NArith Bool Lia Permutation.
From Stdlib Require Import Sorted.
Import ListNotations.
Local Open Scope string_scope.
Local Open Scope list_scope.
Local Open Scope nat_scope.

(** ** JavaScript strings *)

Module JsString.

(** [WhiteSpace] and [LineTerminator] code units below 256: TAB, LF, VT,
    FF, CR, SP and NBSP. *)
Definition is_white_space (c : ascii) : bool :=
  let n := nat_of_ascii c in
  ((9 <=? n) && (n <=? 13)) || (n =? 32) || (n =? 160).

Fixpoint trimStart (s : string) : string :=
  match s with
  | EmptyString => EmptyString
  | String c s' => if is_white_space c then trimStart s' else s
  end.

(** [trimEnd] drops the whole tail when nothing but white space follows. *)
Fixpoint trimEnd (s : string) : string :=
  match s with
  | EmptyString => EmptyString
  | String c s' =>
      match trimEnd s' with
      | EmptyString => if is_white_space c then EmptyString else String c EmptyString
      | t => String c t
      end
  end.

(** [String.prototype.trim] *)
Definition trim (s : string) : string := trimEnd (trimStart s).

(** Lower-case mapping on Latin-1: A-Z, and U+00C0-U+00DE except the
    multiplication sign U+00D7. *)
Definition lower_char (c : ascii) : ascii :=
  let n := nat_of_ascii c in
  if ((65 <=? n) && (n <=? 90))
     || ((192 <=? n) && (n <=? 222) && negb (n =? 215))
  then ascii_of_nat (n + 32) else c.

(** [String.prototype.toLowerCase] *)
Fixpoint toLowerCase (s : string) : string :=
  match s with
  | EmptyString => EmptyString
  | String c s' => String (lower_char c) (toLowerCase s')
  end.

(** [s.replace(c, '')] with a one-character string pattern: only the
    first occurrence goes. *)
Fixpoint remove_first (c : ascii) (s : string) : string :=
  match s with
  | EmptyString => EmptyString
  | String d s' => if Ascii.eqb d c then s' else String d (remove_first c s')
  end.

(** [s.replace(/ /g, '_')] *)
Fixpoint spaces_to_underscores (s : string) : string :=
  match s with
  | EmptyString => EmptyString
  | String c s' =>
      String (if Ascii.eqb c " " then "_"%char else c) (spaces_to_underscores s')
  end.

(** [s.startsWith(p)] *)
Fixpoint startsWith (p s : string) : bool :=
  match p, s with
  | EmptyString, _ => true
  | String _ _, EmptyString => false
  | String a p', String b s' => Ascii.eqb a b && startsWith p' s'
  end.

(** [s.includes(sub)] *)
Fixpoint includes (sub s : string) : bool :=
  if startsWith sub s then true
  else match s with
       | EmptyString => false
       | String _ s' => includes sub s'
       end.

(** [s.split(sep)] for a non-empty separator.  [skip] counts the code
    units of a separator occurrence that are still to be passed over,
    [cur] is the segment being read. *)
Fixpoint split_from (sep : string) (skip : nat) (cur s : string) : list string :=
  match s with
  | EmptyString => [cur]
  | String c s' =>
      match skip with
      | S k => split_from sep k cur s'
      | O =>
          if startsWith sep s
          then cur :: split_from sep (String.length sep - 1) EmptyString s'
          else split_from sep 0 (cur ++ String c EmptyString) s'
      end
  end.

Definition split (sep s : string) : list string := split_from sep 0 EmptyString s.

(** [s.split(c)[0]] for a one-character separator: what precedes the
    first occurrence. *)
Fixpoint before_first (c : ascii) (s : string) : string :=
  match s with
  | EmptyString => EmptyString
  | String d s' => if Ascii.eqb d c then EmptyString else String d (before_first c s')
  end.

Definition is_empty (s : string) : bool :=
  match s with EmptyString => true | _ => false end.

(** Truthiness of a string value. *)
Definition truthy (s : string) : bool := negb (is_empty s).

End JsString.

(** ** JavaScript objects and arrays

    The script only ever stores strings in the objects it fills, so an
    object is the list of its own properties in creation order and an array
    is the list of its elements, [None] standing for a hole. *)

Definition JsObject := list (string * string).
Definition JsArray := list (option string).

Module JsValue.

Fixpoint get_own (o : JsObject) (key : string) : option string :=
  match o with
  | [] => None
  | (k, v) :: o' => if String.eqb k key then Some v else get_own o' key
  end.

(** Overwrites in place, or creates the property after the existing ones. *)
Fixpoint define_own (o : JsObject) (key value : string) : JsObject :=
  match o with
  | [] => [(key, value)]
  | (k, v) :: o' =>
      if String.eqb k key then (k, value) :: o' else (k, v) :: define_own o' key value
  end.

(** [o[key] = value] on an ordinary object whose prototype is
    [Object.prototype].  The only accessor on the chain is [__proto__],
    whose setter ignores a string; every other assignment ends in an own
    data property. *)
Definition object_put (o : JsObject) (key value : string) : JsObject :=
  if String.eqb key "__proto__" then o else define_own o key value.

Definition digit_of (c : ascii) : option N :=
  let n := N_of_ascii c in
  if ((48 <=? n) && (n <=? 57))%N then Some (n - 48)%N else None.

Fixpoint parse_digits (acc : N) (s : string) : option N :=
  match s with
  | EmptyString => Some acc
  | String c s' =>
      match digit_of c with
      | Some d => parse_digits (acc * 10 + d)%N s'
      | None => None
      end
  end.

(** A property key is an array index when it is the canonical decimal
    form of an integer below 2^32 - 1. *)
Definition array_index (key : string) : option N :=
  match key with
  | EmptyString => None
  | String c rest =>
      if Ascii.eqb c "0" && negb (JsString.is_empty rest) then None
      else match parse_digits 0%N key with
           | Some n => if (n <? 4294967295)%N then Some n else None
           | None => None
           end
  end.

(** [a[n] = v]: overwrite, or grow the array leaving holes. *)
Fixpoint array_set_index (a : JsArray) (n : nat) (v : string) : JsArray :=
  match n, a with
  | O, [] => [Some v]
  | O, _ :: t => Some v :: t
  | S k, [] => None :: array_set_index [] k v
  | S k, x :: t => x :: array_set_index t k v
  end.

(** [a.length = n] *)
Definition array_set_length (a : JsArray) (n : nat) : JsArray :=
  firstn n a ++ repeat None (n - List.length a).

(** Insertion of a key into a list of index keys kept in ascending order. *)
Fixpoint insert_by_index (e : N * (string * string)) (l : list (N * (string * string)))
  : list (N * (string * string)) :=
  match l with
  | [] => [e]
  | x :: l' => if (fst e <? fst x)%N then e :: l else x :: insert_by_index e l'
  end.

Fixpoint index_entries (o : JsObject) : list (N * (string * string)) :=
  match o with
  | [] => []
  | (k, v) :: o' =>
      match array_index k with
      | Some n => insert_by_index (n, (k, v)) (index_entries o')
      | None => index_entries o'
      end
  end.

Definition named_entries (o : JsObject) : JsObject :=
  filter (fun kv => match array_index (fst kv) with Some _ => false | None => true end) o.

(** [Object.entries(o)]: index keys in ascending order, then the other
    keys in creation order. *)
Definition entries (o : JsObject) : JsObject :=
  map snd (index_entries o) ++ named_entries o.

End JsValue.

(** ** The rendered document

    A [Document] records what the selectors of the script return on the
    page: [strong_text] is the [innerText] of the first [p strong]
    descendant of a row, [row_text] the [innerText] of the row, [cells] the
    [innerText] of its [td] descendants. *)

Record Row := {
  strong_text : option string;
  row_text : string;
  cells : list string
}.

Definition Table := list Row.

Record Document := {
  title : option string;                  (* h1.ProductMeta__Title *)
  sku : option string;                    (* span.ProductMeta__SkuNumber *)
  slideshow_original_src : list string;   (* .Product__Slideshow img[data-original-src] *)
  gallery_src : list string;              (* .ProductGallery__Carousel img[src] *)
  lazy_data_src : list string;            (* img[data-src] *)
  tables : list Table                     (* .ProductMeta__Description .TableWrapper table *)
}.

(** ** The realm the callback runs in

    [data[sectionName]] is a property lookup, not a test against the three
    section names: it also finds the other own properties of [data] and
    what [data] inherits from [Object.prototype].  The callback is sloppy
    mode code, and the page is taken to start with an untouched
    [Object.prototype] and [Object]. *)

Record Realm := {
  prototype_props : JsObject;     (* string properties put on Object.prototype *)
  constructor_props : JsObject    (* string properties put on Object *)
}.

Definition pristine : Realm := {| prototype_props := []; constructor_props := [] |}.

Inductive SectionKind := OemReference | Compatibility | TechnicalSpecifications.

(** What a property lookup on [data] (or [tempData]) evaluates to. *)
Inductive Ref :=
| RUndefined
| RPrimitive (s : string)
| RArray
| RSection (k : SectionKind)
| RObjectPrototype
| RFunctionObject (is_Object : bool).

Inductive Completion (S : Type) :=
| Normal (s : S)
| Thrown (s : S).
Arguments Normal {S} s.
Arguments Thrown {S} s.

Definition state_of {S : Type} (c : Completion S) : S :=
  match c with Normal s => s | Thrown s => s end.

(** Runs [step] over [l] like [forEach] does: an exception ends the walk. *)
Fixpoint forEach {S X : Type} (step : S -> X -> Completion S) (s : S) (l : list X)
  : Completion S :=
  match l with
  | [] => Normal s
  | x :: l' =>
      match step s x with
      | Normal s' => forEach step s' l'
      | Thrown s' => Thrown s'
      end
  end.

Module Realms.

Definition mem (x : string) (l : list string) : bool := existsb (String.eqb x) l.

(** The function-valued properties of [Object.prototype] other than
    [constructor]. *)
Definition object_prototype_methods : list string :=
  ["__defineGetter__"; "__defineSetter__"; "__lookupGetter__"; "__lookupSetter__";
   "hasOwnProperty"; "isPrototypeOf"; "propertyIsEnumerable"; "toLocaleString";
   "toString"; "valueOf"].

(** Lookup of [name] on [Object.prototype]. *)
Definition inherited (r : Realm) (name : string) : Ref :=
  if String.eqb name "__proto__" then RObjectPrototype
  else match JsValue.get_own (prototype_props r) name with
       | Some s => RPrimitive s
       | None =>
           if String.eqb name "constructor" then RFunctionObject true
           else if mem name object_prototype_methods then RFunctionObject false
           else RUndefined
       end.

Definition truthy (v : Ref) : bool :=
  match v with
  | RUndefined => false
  | RPrimitive s => JsString.truthy s
  | _ => true
  end.

(** [Object.prototype[key] = value] *)
Definition prototype_put (r : Realm) (key value : string) : Realm :=
  if String.eqb key "__proto__" then r
  else {| prototype_props := JsValue.define_own (prototype_props r) key value;
          constructor_props := constructor_props r |}.

(** [f[key] = value] on a built-in function object.  [caller] and
    [arguments] are the throwing accessors of [Function.prototype];
    [prototype], [name] and [length] are read-only, which sloppy mode
    ignores; on [Object] any other key becomes (or overwrites) a property,
    [Object.keys] included. *)
Definition function_put (is_Object : bool) (r : Realm) (key value : string)
  : Completion Realm :=
  if mem key ["caller"; "arguments"] then Thrown r
  else if is_Object && negb (mem key ["prototype"; "name"; "length"; "__proto__"])
       then Normal {| prototype_props := prototype_props r;
                      constructor_props := JsValue.define_own (constructor_props r) key value |}
       else Normal r.

End Realms.

(** ** The extraction callback of variants A, B and C *)

(** The object [data] that the callback fills and returns. *)
Record ProductData := {
  product_name : string;
  part_number : string;
  images : JsArray;
  oem_reference : JsObject;
  compatibility : JsObject;
  technical_specifications : JsObject
}.

(** [data] together with the realm around it. *)
Record Heap := {
  data : ProductData;
  realm : Realm
}.

Definition section_name (k : SectionKind) : string :=
  match k with
  | OemReference => "oem_reference"
  | Compatibility => "compatibility"
  | TechnicalSpecifications => "technical_specifications"
  end.

Definition get_section (d : ProductData) (k : SectionKind) : JsObject :=
  match k with
  | OemReference => oem_reference d
  | Compatibility => compatibility d
  | TechnicalSpecifications => technical_specifications d
  end.

Definition set_section (d : ProductData) (k : SectionKind) (o : JsObject) : ProductData :=
  {| product_name := product_name d;
     part_number := part_number d;
     images := images d;
     oem_reference := match k with OemReference => o | _ => oem_reference d end;
     compatibility := match k with Compatibility => o | _ => compatibility d end;
     technical_specifications :=
       match k with TechnicalSpecifications => o | _ => technical_specifications d end |}.

Definition set_images (d : ProductData) (a : JsArray) : ProductData :=
  {| product_name := product_name d;
     part_number := part_number d;
     images := a;
     oem_reference := oem_reference d;
     compatibility := compatibility d;
     technical_specifications := technical_specifications d |}.

(** The renaming of a heading to one of the three section names; a heading
    that matches none of the substrings is kept as it is. *)
Definition resolve_heading (sectionName : string) : string :=
  if JsString.includes "oem_part_number_cross_references" sectionName then "oem_reference"
  else if JsString.includes "compatibility" sectionName then "compatibility"
  else if JsString.includes "technical_specifications" sectionName then "technical_specifications"
  else sectionName.

(** [rows[0].innerText.trim().replace(':', '').toLowerCase().replace(/ /g, '_')] *)
Definition heading_of_row (r : Row) : string :=
  JsString.spaces_to_underscores
    (JsString.toLowerCase (JsString.remove_first ":" (JsString.trim (row_text r)))).

(** The value of [sectionName] when the row loop starts. *)
Definition sectionName_of (rows : Table) : string :=
  match rows with
  | r0 :: _ =>
      match strong_text r0 with
      | Some _ => resolve_heading (heading_of_row r0)
      | None => EmptyString
      end
  | [] => EmptyString
  end.

(** [cells[0].innerText.trim().toLowerCase().replace(/ /g, '_')] *)
Definition key_of_cell (c : string) : string :=
  JsString.spaces_to_underscores (JsString.toLowerCase (JsString.trim c)).

(** [data[name]] *)
Definition get_data (h : Heap) (name : string) : Ref :=
  if String.eqb name "product_name" then RPrimitive (product_name (data h))
  else if String.eqb name "part_number" then RPrimitive (part_number (data h))
  else if String.eqb name "images" then RArray
  else if String.eqb name "oem_reference" then RSection OemReference
  else if String.eqb name "compatibility" then RSection Compatibility
  else if String.eqb name "technical_specifications" then RSection TechnicalSpecifications
  else Realms.inherited (realm h) name.

Definition with_realm (h : Heap) (c : Completion Realm) : Completion Heap :=
  match c with
  | Normal r => Normal {| data := data h; realm := r |}
  | Thrown r => Thrown {| data := data h; realm := r |}
  end.

Section Callback.

(** [array_length_of v] is [Some n] when [ToNumber(v)] is the integer [n]
    below 2^32, and [None] when assigning [v] to the [length] of an array
    raises a [RangeError].  The conversion rounds to a double; it is a
    parameter of the model. *)
Variable array_length_of : string -> option nat.

(** [a[key] = value] on the array [data.images].  A key that is neither an
    index nor [length] names a property that is no element of the array. *)
Definition array_put (a : JsArray) (key value : string) : Completion JsArray :=
  match JsValue.array_index key with
  | Some n => Normal (JsValue.array_set_index a (N.to_nat n) value)
  | None =>
      if String.eqb key "length"
      then match array_length_of value with
           | Some n => Normal (JsValue.array_set_length a n)
           | None => Thrown a
           end
      else Normal a
  end.

(** [target[key] = value], where [target] is what [data[sectionName]]
    evaluated to.  Assigning to a property of a string does nothing in
    sloppy mode. *)
Definition put_member (h : Heap) (target : Ref) (key value : string) : Completion Heap :=
  match target with
  | RUndefined => Thrown h
  | RPrimitive _ => Normal h
  | RArray =>
      match array_put (images (data h)) key value with
      | Normal a => Normal {| data := set_images (data h) a; realm := realm h |}
      | Thrown a => Thrown {| data := set_images (data h) a; realm := realm h |}
      end
  | RSection k =>
      Normal {| data := set_section (data h) k
                          (JsValue.object_put (get_section (data h) k) key value);
                realm := realm h |}
  | RObjectPrototype => Normal {| data := data h; realm := Realms.prototype_put (realm h) key value |}
  | RFunctionObject b => with_realm h (Realms.function_put b (realm h) key value)
  end.

(** One turn of the row loop. *)
Definition process_row (sectionName : string) (h : Heap) (r : Row) : Completion Heap :=
  match cells r with
  | [c0; c1] =>
      let key := key_of_cell c0 in
      let value := JsString.trim c1 in
      if JsString.truthy sectionName && Realms.truthy (get_data h sectionName)
      then put_member h (get_data h sectionName) key value
      else Normal h
  | _ => Normal h
  end.

(** The callback given to [tables.forEach]; the row loop starts at index 1. *)
Definition process_table (h : Heap) (rows : Table) : Completion Heap :=
  forEach (process_row (sectionName_of rows)) h (tl rows).

Definition text_or_empty (e : option string) : string :=
  match e with
  | Some t => JsString.trim t
  | None => EmptyString
  end.

(** What reading [data.images[i]] gives at a hole: the string a table put
    on [Object.prototype] under the index [i], if any. *)
Definition read_hole (r : Realm) (i : nat) : option string :=
  match find (fun kv => match JsValue.array_index (fst kv) with
                        | Some n => N.eqb n (N.of_nat i)
                        | None => false
                        end) (prototype_props r) with
  | Some kv => Some (snd kv)
  | None => None
  end.

Fixpoint serialise_from (r : Realm) (i : nat) (a : JsArray) : JsArray :=
  match a with
  | [] => []
  | Some s :: a' => Some s :: serialise_from r (S i) a'
  | None :: a' => read_hole r i :: serialise_from r (S i) a'
  end.

(** [page.evaluate] resolves to a copy of what the function returned, made
    by reading its properties: the strings and the own properties of the
    sections as they are, the array element by element.  In the copy
    [None] is an element that is no string. *)
Definition serialise (h : Heap) : ProductData :=
  set_images (data h) (serialise_from (realm h) 0 (images (data h))).

(** [page.evaluate] with the function of the script.  [collect] is the
    image step, the one part in which variant C differs from variants A
    and B.  The [try]/[catch] around the body returns [data] as the
    exception left it. *)
Definition evaluate_callback (collect : Document -> JsArray) (doc : Document) : ProductData :=
  let data0 := {| product_name := text_or_empty (title doc);
                  part_number := text_or_empty (sku doc);
                  images := collect doc;
                  oem_reference := [];
                  compatibility := [];
                  technical_specifications := [] |} in
  serialise (state_of (forEach process_table {| data := data0; realm := pristine |}
                         (tables doc))).

(** *** Images, variants A, B and D *)

(** [imageElements.forEach]: every non-empty attribute value is pushed
    behind the literal [https:]. *)
Definition push_images (srcs : list string) : list string :=
  map (fun imgSrc => "https:" ++ imgSrc)%string (filter JsString.truthy srcs).

Definition images_A (doc : Document) : JsArray :=
  map Some (push_images (slideshow_original_src doc)).

(** *** Images, variant C *)

(** [Set.prototype.add] on a set kept in insertion order. *)
Definition set_add (s : list string) (x : string) : list string :=
  if Realms.mem x s then s else s ++ [x].

Definition addValidImageUrl (imageUrls : list string) (imgSrc : string) : list string :=
  if JsString.truthy imgSrc && negb (JsString.includes "{width}" imgSrc)
  then
    let fullUrl := if JsString.startsWith "http" imgSrc then imgSrc
                   else ("https:" ++ imgSrc)%string in
    let urlWithoutQuery := JsString.before_first "?" fullUrl in
    set_add imageUrls urlWithoutQuery
  else imageUrls.

(** The three image sources in turn; the gallery is read only when the
    slideshow gave nothing. *)
Definition imageUrls_C (doc : Document) : list string :=
  let s1 := fold_left addValidImageUrl (slideshow_original_src doc) [] in
  let s2 := match s1 with
            | [] => fold_left addValidImageUrl (gallery_src doc) s1
            | _ => s1
            end in
  fold_left addValidImageUrl (lazy_data_src doc) s2.

(** [Array.from(imageUrls)] *)
Definition images_C (doc : Document) : JsArray := map Some (imageUrls_C doc).

Definition extract_A : Document -> ProductData := evaluate_callback images_A.
Definition extract_C : Document -> ProductData := evaluate_callback images_C.

End Callback.

(** ** The extraction callback of variant D *)

(** The object [data] of variant D: the three sections are strings. *)
Record ProductDataD := {
  product_name_D : string;
  part_number_D : string;
  images_D : list string;
  oem_reference_D : string;
  compatibility_D : string;
  technical_specifications_D : string;
  product_category_string : string
}.

(** [tempData], with the realm around it. *)
Record TempHeap := {
  temp_oem_reference : JsObject;
  temp_compatibility : JsObject;
  temp_technical_specifications : JsObject;
  temp_realm : Realm
}.

Definition get_temp_section (h : TempHeap) (k : SectionKind) : JsObject :=
  match k with
  | OemReference => temp_oem_reference h
  | Compatibility => temp_compatibility h
  | TechnicalSpecifications => temp_technical_specifications h
  end.

Definition set_temp_section (h : TempHeap) (k : SectionKind) (o : JsObject) : TempHeap :=
  {| temp_oem_reference := match k with OemReference => o | _ => temp_oem_reference h end;
     temp_compatibility := match k with Compatibility => o | _ => temp_compatibility h end;
     temp_technical_specifications :=
       match k with TechnicalSpecifications => o | _ => temp_technical_specifications h end;
     temp_realm := temp_realm h |}.

Definition set_temp_realm (h : TempHeap) (r : Realm) : TempHeap :=
  {| temp_oem_reference := temp_oem_reference h;
     temp_compatibility := temp_compatibility h;
     temp_technical_specifications := temp_technical_specifications h;
     temp_realm := r |}.

(** [tempData[name]] *)
Definition get_temp (h : TempHeap) (name : string) : Ref :=
  if String.eqb name "oem_reference" then RSection OemReference
  else if String.eqb name "compatibility" then RSection Compatibility
  else if String.eqb name "technical_specifications" then RSection TechnicalSpecifications
  else Realms.inherited (temp_realm h) name.

(** [firstRowStrongTag.innerText.trim().toLowerCase().replace(/ /g, '_')],
    then the renaming. *)
Definition sectionName_D (rows : Table) : string :=
  match rows with
  | r0 :: _ =>
      match strong_text r0 with
      | Some t =>
          resolve_heading (JsString.spaces_to_underscores (JsString.toLowerCase (JsString.trim t)))
      | None => EmptyString
      end
  | [] => EmptyString
  end.

(** [tempData[sectionName][key] = value] *)
Definition put_member_D (h : TempHeap) (target : Ref) (key value : string)
  : Completion TempHeap :=
  match target with
  | RUndefined => Thrown h
  | RPrimitive _ => Normal h
  | RArray => Normal h
  | RSection k =>
      Normal (set_temp_section h k (JsValue.object_put (get_temp_section h k) key value))
  | RObjectPrototype => Normal (set_temp_realm h (Realms.prototype_put (temp_realm h) key value))
  | RFunctionObject b =>
      match Realms.function_put b (temp_realm h) key value with
      | Normal r => Normal (set_temp_realm h r)
      | Thrown r => Thrown (set_temp_realm h r)
      end
  end.

(** The callback of [rows.forEach]: every row, the first one too. *)
Definition process_row_D (sectionName : string) (h : TempHeap) (r : Row)
  : Completion TempHeap :=
  match cells r with
  | [c0; c1] =>
      let key := JsString.trim c0 in
      let value := JsString.trim c1 in
      if JsString.truthy key
      then put_member_D h (get_temp h sectionName) key value
      else Normal h
  | _ => Normal h
  end.

Definition process_table_D (h : TempHeap) (rows : Table) : Completion TempHeap :=
  let sectionName := sectionName_D rows in
  if negb (JsString.truthy sectionName) || negb (Realms.truthy (get_temp h sectionName))
  then Normal h
  else forEach (process_row_D sectionName) h rows.

Definition double_quote : ascii := ascii_of_nat 34.

(** Whether [Object.keys] and [Object.entries] are still functions. *)
Definition callable (r : Realm) (name : string) : bool :=
  match JsValue.get_own (constructor_props r) name with
  | Some _ => false
  | None => true
  end.

Definition table_row_html (kv : string * string) : string :=
  ("<tr><td>" ++ fst kv ++ "</td><td>" ++ snd kv ++ "</td></tr>")%string.

(** [createTableHTML(obj)]; [None] is the [TypeError] of calling a string. *)
Definition createTableHTML (r : Realm) (obj : JsObject) : option string :=
  if negb (callable r "keys") then None
  else match obj with
       | [] => Some EmptyString
       | _ =>
           if negb (callable r "entries") then None
           else Some ("<table border=" ++ String double_quote "1" ++ String double_quote ">"
                      ++ String.concat EmptyString (map table_row_html (JsValue.entries obj))
                      ++ "</table>")%string
       end.

(** [tempData.technical_specifications['Category'] || ''] *)
Definition category_of (h : TempHeap) : string :=
  match JsValue.get_own (temp_technical_specifications h) "Category" with
  | Some v => v
  | None =>
      match Realms.inherited (temp_realm h) "Category" with
      | RPrimitive v => v
      | _ => EmptyString
      end
  end.

Definition tempData_D (doc : Document) : Completion TempHeap :=
  forEach process_table_D
    {| temp_oem_reference := []; temp_compatibility := [];
       temp_technical_specifications := []; temp_realm := pristine |}
    (tables doc).

Definition or_empty (o : option string) : string :=
  match o with
  | Some s => s
  | None => EmptyString
  end.

(** The function passed to [page.evaluate] in variant D.  The three
    assignments after the table walk happen in order, and the first
    [createTableHTML] that throws leaves the later fields at [''].  *)
Definition extract_D (doc : Document) : ProductDataD :=
  let name := text_or_empty (title doc) in
  let part := text_or_empty (sku doc) in
  let imgs := push_images (slideshow_original_src doc) in
  let blank category :=
    {| product_name_D := name; part_number_D := part; images_D := imgs;
       oem_reference_D := EmptyString; compatibility_D := EmptyString; technical_specifications_D := EmptyString;
       product_category_string := category |} in
  match tempData_D doc with
  | Thrown _ => blank EmptyString
  | Normal h =>
      let r := temp_realm h in
      match createTableHTML r (temp_oem_reference h) with
      | None => blank (category_of h)
      | Some oem =>
          let comp := createTableHTML r (temp_compatibility h) in
          let tech := match comp with
                      | Some _ => createTableHTML r (temp_technical_specifications h)
                      | None => None
                      end in
          {| product_name_D := name; part_number_D := part; images_D := imgs;
             oem_reference_D := oem;
             compatibility_D := or_empty comp;
             technical_specifications_D := or_empty tech;
             product_category_string := category_of h |}
      end
  end.

(** ** Targets, records and artifacts *)

(** One element of [product_links/product_data.json]. *)
Record Target := {
  product_link : string
}.

(** [{ url, data }], variants A and B. *)
Record Scraped := {
  url : string;
  scraped_data : ProductData
}.

(** [productData] of variant C once [scrape_date] has been added. *)
Record DatedProduct := {
  product : ProductData;
  scrape_date : string
}.

(** [{ url, data }], variant C. *)
Record ScrapedC := {
  url_C : string;
  data_C : DatedProduct
}.

(** [{ url, timestamp }], variant C. *)
Record FailedC := {
  failed_url : string;
  timestamp : string
}.

(** [{ url, id, data }], variant D; [None] is [undefined]. *)
Record ScrapedD := {
  url_D : string;
  id : option string;
  data_D : ProductDataD
}.

(** The value handed to [JSON.stringify] for an artifact. *)
Inductive Json :=
| JScraped (l : list Scraped)
| JUrls (l : list string)
| JScrapedC (l : list ScrapedC)
| JFailedC (l : list FailedC)
| JScrapedD (l : list ScrapedD).

(** ** Effects

    What the browser answers to one round of [goto], [waitForSelector] and
    [evaluate]. *)
Inductive Response :=
| NavigationError (message : string)
| SelectorTimeout (message : string)
| EvaluateError (message : string)
| Rendered (d : Document).

(** The console messages, with the holes of their templates as arguments. *)
Inductive Message :=
| ErrorScrapingAttempt (url : string) (attempt limit : nat) (message : string)
| ErrorScraping (url : string) (message : string)
| Restarting
| ScrapingAt (position total : nat) (url : string)
| ScrapingUrl (url : string)
| ScrapingFailed (url : string)
| FailedToScrape (url message : string)
| SavedScraped (path : string)
| SavedFailed (path : string)
| NoFailedLinks.

Inductive Event :=
| BrowserLaunch (stealth : bool)
| NewPage
| SetUserAgent
| SetExtraHTTPHeaders
| EvaluateOnNewDocument
| BrowserClose
| Goto (url : string)
| WaitForSelector
| Evaluate
| Delay (ms : nat)
| Console (m : Message)
| AppendFile (path line : string)
| WriteFile (path : string) (content : Json).

(** How a call of an [async] function ends: with the value it returns, or
    with the exception that leaves it. *)
Inductive Settled (A : Type) :=
| Fulfilled (a : A)
| Rejected (message : string).
Arguments Fulfilled {A} a.
Arguments Rejected {A} message.

(** A computation reads the number of navigations made so far, and returns
    its value, the new count and the events it caused, oldest first. *)
Definition M (A : Type) : Type := nat -> A * nat * list Event.

Definition ret {A : Type} (a : A) : M A := fun n => (a, n, []).

Definition bind {A B : Type} (m : M A) (f : A -> M B) : M B :=
  fun n =>
    let '(a, n1, w1) := m n in
    let '(b, n2, w2) := f a n1 in
    (b, n2, w1 ++ w2).

Definition emit (e : Event) : M unit := fun n => (tt, n, [e]).

Definition emits (l : list Event) : M unit := fun n => (tt, n, l).

Declare Scope scraper_scope.
Notation "x <- m ;; k" := (bind m (fun x => k))
  (at level 61, m at next level, right associativity) : scraper_scope.
Notation "m ;;; k" := (bind m (fun _ => k))
  (at level 61, right associativity) : scraper_scope.
Local Open Scope scraper_scope.

Definition value_of {A : Type} (r : A * nat * list Event) : A := fst (fst r).
Definition clock_of {A : Type} (r : A * nat * list Event) : nat := snd (fst r).
Definition events_of {A : Type} (r : A * nat * list Event) : list Event := snd r.

Definition BATCH_SIZE : nat := 50.
Definition RETRY_LIMIT : nat := 3.
Definition DELAY_MS : nat := 2000.

Definition delay (ms : nat) : M unit := emit (Delay ms).

(** The calls an attempt reaches before it throws or completes. *)
Definition attempt_events (url : string) (r : Response) : list Event :=
  match r with
  | NavigationError _ => [Goto url]
  | SelectorTimeout _ => [Goto url; WaitForSelector]
  | EvaluateError _ => [Goto url; WaitForSelector; Evaluate]
  | Rendered _ => [Goto url; WaitForSelector; Evaluate]
  end.

Definition error_message (r : Response) : string :=
  match r with
  | NavigationError m => m
  | SelectorTimeout m => m
  | EvaluateError m => m
  | Rendered _ => EmptyString
  end.

(** [launchBrowser()], [newPage()] and the three settings of the page. *)
Definition open_session : M unit :=
  emits [BrowserLaunch true; NewPage; SetUserAgent; SetExtraHTTPHeaders; EvaluateOnNewDocument].

Definition formatted_path (prefix date suffix : string) : string :=
  (prefix ++ date ++ suffix)%string.

Section Scraper.

Variable array_length_of : string -> option nat.

(** [page n url]: the answer of the browser to the [n]-th navigation of the
    run when it is asked for [url]. *)
Variable page : nat -> string -> Response.

(** [append_error n k]: the answer of the file system to the [k]-th
    [appendFileSync] that follows the [n]-th navigation of the run.  [None]
    is a line appended, [Some message] the exception thrown instead, as
    when the directory [logs/], which the script does not create, is
    missing. *)
Variable append_error : nat -> nat -> option string.

(** The [try] body of an attempt up to the end of [page.evaluate]. *)
Definition navigate (url : string) : M Response :=
  fun n => (page n url, S n, attempt_events url (page n url)).

(** *** Variants A and D: [scrapeProduct] *)

(** The [while (attempts < RETRY_LIMIT)] loop; [remaining] is
    [RETRY_LIMIT - attempts]. *)
Fixpoint attempts_loop {R : Type} (callback : Document -> R) (url : string)
  (remaining attempts : nat) : M (option R) :=
  match remaining with
  | O => ret None
  | S remaining' =>
      r <- navigate url ;;
      match r with
      | Rendered d => ret (Some (callback d))
      | _ =>
          emit (Console (ErrorScrapingAttempt url (attempts + 1) RETRY_LIMIT (error_message r))) ;;;
          delay 2000 ;;;
          attempts_loop callback url remaining' (attempts + 1)
      end
  end.

Definition scrapeProduct_A (url : string) : M (option ProductData) :=
  attempts_loop (extract_A array_length_of) url RETRY_LIMIT 0.

Definition scrapeProduct_D (url : string) : M (option ProductDataD) :=
  attempts_loop extract_D url RETRY_LIMIT 0.

(** *** Variant C: [logErrorToFile] and [scrapeProduct] *)

Definition log_path (formattedDate : string) : string :=
  formatted_path "logs/image_scraping_errors_" formattedDate ".log".

Definition log_entry (formattedDate url errorMessage : string) : string :=
  (formattedDate ++ " - URL: " ++ url ++ " - Error: " ++ errorMessage
   ++ String (ascii_of_nat 10) EmptyString)%string.

(** [logErrorToFile], called as the [k]-th one since the last navigation.
    The value is the message of the exception when [appendFileSync]
    throws. *)
Definition logErrorToFile (formattedDate url errorMessage : string) (k : nat)
  : M (option string) :=
  fun n =>
    match append_error n k with
    | None =>
        (None, n,
         [AppendFile (log_path formattedDate) (log_entry formattedDate url errorMessage)])
    | Some message => (Some message, n, [])
    end.

(** The [catch] of [scrapeProduct]: it logs, as the [k]-th call, and returns
    [null]; an exception of the log call leaves the function. *)
Definition scrapeProduct_C_catch (formattedDate url message : string) (k : nat)
  : M (Settled (option DatedProduct)) :=
  thrown <- logErrorToFile formattedDate url ("Error scraping product: " ++ message)%string k ;;
  match thrown with
  | None => ret (Fulfilled None)
  | Some message' => ret (Rejected message')
  end.

(** The log call for a record without images stands inside the [try]: when
    it throws, the [catch] takes over. *)
Definition scrapeProduct_C (formattedDate url : string)
  : M (Settled (option DatedProduct)) :=
  r <- navigate url ;;
  match r with
  | Rendered d =>
      let productData := extract_C array_length_of d in
      match images productData with
      | [] =>
          thrown <- logErrorToFile formattedDate url "No images found for this product" 0 ;;
          match thrown with
          | None =>
              ret (Fulfilled (Some {| product := productData; scrape_date := formattedDate |}))
          | Some message => scrapeProduct_C_catch formattedDate url message 1
          end
      | _ => ret (Fulfilled (Some {| product := productData; scrape_date := formattedDate |}))
      end
  | _ => scrapeProduct_C_catch formattedDate url (error_message r) 0
  end.

(** *** Variant A: the main function *)

(** The body of [if (i % BATCH_SIZE === 0 && i !== 0)]. *)
Definition recycle : M unit :=
  emit (Console Restarting) ;;;
  emit BrowserClose ;;;
  open_session.

(** The [for] loop from index [i] on; [productLinks] is what is left of the
    input from that index, [total] is [productLinks.length].  Every
    exception of an attempt is caught inside [scrapeProduct], so the [catch]
    of the loop body, which pushes the URL on [failedLinks] as the [else]
    branch does, has nothing to catch. *)
Fixpoint main_loop_A (total i : nat) (productLinks : list Target)
  (scrapedData : list Scraped) (failedLinks : list string)
  : M (list Scraped * list string) :=
  match productLinks with
  | [] => ret (scrapedData, failedLinks)
  | product :: rest =>
      (if (i mod BATCH_SIZE =? 0) && negb (i =? 0) then recycle else ret tt) ;;;
      let url := product_link product in
      emit (Console (ScrapingAt (i + 1) total url)) ;;;
      delay DELAY_MS ;;;
      data <- scrapeProduct_A url ;;
      match data with
      | Some d =>
          main_loop_A total (i + 1) rest
            (scrapedData ++ [{| url := url; scraped_data := d |}]) failedLinks
      | None =>
          emit (Console (ScrapingFailed url)) ;;;
          main_loop_A total (i + 1) rest scrapedData (failedLinks ++ [url])
      end
  end.

Definition results_path_A (currentDate : string) : string :=
  formatted_path "results/products_" currentDate ".json".

Definition failed_path_A (currentDate : string) : string :=
  formatted_path "failed/failed_links_" currentDate ".json".

(** The two [writeFileSync] calls that end the run. *)
Definition save_A (currentDate : string) (scrapedData : list Scraped)
  (failedLinks : list string) : M unit :=
  emit (WriteFile (results_path_A currentDate) (JScraped scrapedData)) ;;;
  emit (Console (SavedScraped (results_path_A currentDate))) ;;;
  match failedLinks with
  | _ :: _ =>
      emit (WriteFile (failed_path_A currentDate) (JUrls failedLinks)) ;;;
      emit (Console (SavedFailed (failed_path_A currentDate)))
  | [] => emit (Console NoFailedLinks)
  end.

Definition main_A (currentDate : string) (productLinks : list Target)
  : M (list Scraped * list string) :=
  open_session ;;;
  out <- main_loop_A (List.length productLinks) 0 productLinks [] [] ;;
  emit BrowserClose ;;;
  save_A currentDate (fst out) (snd out) ;;;
  ret out.

(** *** Variant C: the main function

    The [catch] of the loop body takes what [scrapeProduct] throws and
    pushes the same entry as the [else] branch. *)

Fixpoint main_loop_C (formattedDate : string) (productLinks : list Target)
  (scrapedData : list ScrapedC) (failedLinks : list FailedC)
  : M (list ScrapedC * list FailedC) :=
  match productLinks with
  | [] => ret (scrapedData, failedLinks)
  | product :: rest =>
      let url := product_link product in
      emit (Console (ScrapingUrl url)) ;;;
      data <- scrapeProduct_C formattedDate url ;;
      match data with
      | Fulfilled (Some d) =>
          main_loop_C formattedDate rest
            (scrapedData ++ [{| url_C := url; data_C := d |}]) failedLinks
      | Fulfilled None =>
          emit (Console (ScrapingFailed url)) ;;;
          main_loop_C formattedDate rest scrapedData
            (failedLinks ++ [{| failed_url := url; timestamp := formattedDate |}])
      | Rejected message =>
          emit (Console (FailedToScrape url message)) ;;;
          main_loop_C formattedDate rest scrapedData
            (failedLinks ++ [{| failed_url := url; timestamp := formattedDate |}])
      end
  end.

Definition results_path_C (formattedDate : string) : string :=
  formatted_path "results/scrapedProducts_" formattedDate ".json".

Definition failed_path_C (formattedDate : string) : string :=
  formatted_path "failed/failedLinks_" formattedDate ".json".

Definition save_C (formattedDate : string) (scrapedData : list ScrapedC)
  (failedLinks : list FailedC) : M unit :=
  emit (WriteFile (results_path_C formattedDate) (JScrapedC scrapedData)) ;;;
  emit (Console (SavedScraped (results_path_C formattedDate))) ;;;
  match failedLinks with
  | _ :: _ =>
      emit (WriteFile (failed_path_C formattedDate) (JFailedC failedLinks)) ;;;
      emit (Console (SavedFailed (failed_path_C formattedDate)))
  | [] => emit (Console NoFailedLinks)
  end.

Definition main_C (formattedDate : string) (productLinks : list Target)
  : M (list ScrapedC * list FailedC) :=
  emits [BrowserLaunch false; NewPage] ;;;
  out <- main_loop_C formattedDate productLinks [] [] ;;
  emit BrowserClose ;;;
  save_C formattedDate (fst out) (snd out) ;;;
  ret out.

(** *** Variant D: the main function *)

(** [url.split('/products/')[1]] *)
Definition id_of_url (url : string) : option string :=
  nth_error (JsString.split "/products/" url) 1.

Fixpoint main_loop_D (total i : nat) (productLinks : list Target)
  (scrapedData : list ScrapedD) (failedLinks : list string)
  : M (list ScrapedD * list string) :=
  match productLinks with
  | [] => ret (scrapedData, failedLinks)
  | product :: rest =>
      (if (i mod BATCH_SIZE =? 0) && negb (i =? 0) then recycle else ret tt) ;;;
      let url := product_link product in
      emit (Console (ScrapingAt (i + 1) total url)) ;;;
      delay DELAY_MS ;;;
      data <- scrapeProduct_D url ;;
      match data with
      | Some d =>
          main_loop_D total (i + 1) rest
            (scrapedData ++ [{| url_D := url; id := id_of_url url; data_D := d |}]) failedLinks
      | None =>
          emit (Console (ScrapingFailed url)) ;;;
          main_loop_D total (i + 1) rest scrapedData (failedLinks ++ [url])
      end
  end.

Definition save_D (currentDate : string) (scrapedData : list ScrapedD)
  (failedLinks : list string) : M unit :=
  emit (WriteFile (results_path_A currentDate) (JScrapedD scrapedData)) ;;;
  emit (Console (SavedScraped (results_path_A currentDate))) ;;;
  match failedLinks with
  | _ :: _ =>
      emit (WriteFile (failed_path_A currentDate) (JUrls failedLinks)) ;;;
      emit (Console (SavedFailed (failed_path_A currentDate)))
  | [] => emit (Console NoFailedLinks)
  end.

Definition main_D (currentDate : string) (productLinks : list Target)
  : M (list ScrapedD * list string) :=
  open_session ;;;
  out <- main_loop_D (List.length productLinks) 0 productLinks [] [] ;;
  emit BrowserClose ;;;
  save_D currentDate (fst out) (snd out) ;;;
  ret out.

End Scraper.

(** ** Observations on runs and records *)

(** [Interleave l r m]: [m] is [l] and [r] shuffled together, each in its
    own order. *)
Inductive Interleave {A : Type} : list A -> list A -> list A -> Prop :=
| interleave_nil : Interleave [] [] []
| interleave_left (x : A) (l r m : list A) :
    Interleave l r m -> Interleave (x :: l) r (x :: m)
| interleave_right (x : A) (l r m : list A) :
    Interleave l r m -> Interleave l (x :: r) (x :: m).

(** The elements of [l] whose flag is [b]. *)
Fixpoint select {A : Type} (b : bool) (l : list A) (flags : list bool) : list A :=
  match l, flags with
  | x :: l', f :: flags' =>
      if Bool.eqb f b then x :: select b l' flags' else select b l' flags'
  | _, _ => []
  end.

Definition is_rendered (r : Response) : bool :=
  match r with
  | Rendered _ => true
  | _ => false
  end.

(** What the [j]-th attempt of a series on [url] leaves in the trace when
    it fails; the run made [n] navigations before the series, and
    [attempts] is the counter of the loop when the series starts. *)
Definition failed_attempt (page : nat -> string -> Response) (url : string)
  (attempts n j : nat) : list Event :=
  attempt_events url (page (n + j) url)
  ++ [Console (ErrorScrapingAttempt url (attempts + j + 1) RETRY_LIMIT
                 (error_message (page (n + j) url)));
      Delay 2000].

Definition failed_from (page : nat -> string -> Response) (url : string)
  (attempts n k : nat) : list Event :=
  flat_map (failed_attempt page url attempts n) (seq 0 k).

(** The trace of [k] failed attempts from the start of [scrapeProduct]. *)
Definition failed_attempts (page : nat -> string -> Response) (url : string) (n k : nat)
  : list Event :=
  failed_from page url 0 n k.

Definition is_goto (e : Event) : bool :=
  match e with
  | Goto _ => true
  | _ => false
  end.

Definition nonzero_multiple (i : nat) : bool := (i mod BATCH_SIZE =? 0) && negb (i =? 0).

(** Where the session stands since the last progress message: untouched,
    closed, or closed and launched again. *)
Inductive Session := Live | Closed | Reopened.

(** The 0-based loop indices whose progress message comes after a
    [browser.close()] and a launch of the replacement. *)
Fixpoint recycled_at (session : Session) (trace : list Event) : list nat :=
  match trace with
  | [] => []
  | BrowserClose :: trace' => recycled_at Closed trace'
  | BrowserLaunch _ :: trace' =>
      recycled_at (match session with Closed => Reopened | _ => session end) trace'
  | Console (ScrapingAt position _ _) :: trace' =>
      match session with
      | Reopened => (position - 1) :: recycled_at Live trace'
      | _ => recycled_at Live trace'
      end
  | _ :: trace' => recycled_at session trace'
  end.

(** The events that neither open or close a browser, nor report progress,
    nor write a file. *)
Definition neutral (e : Event) : bool :=
  match e with
  | BrowserClose => false
  | BrowserLaunch _ => false
  | Console (ScrapingAt _ _ _) => false
  | WriteFile _ _ => false
  | _ => true
  end.

(** The files written, in order. *)
Fixpoint writes (trace : list Event) : list (string * Json) :=
  match trace with
  | [] => []
  | WriteFile path content :: trace' => (path, content) :: writes trace'
  | _ :: trace' => writes trace'
  end.

(** The lines appended to files, in order. *)
Fixpoint appended (trace : list Event) : list (string * string) :=
  match trace with
  | [] => []
  | AppendFile path line :: trace' => (path, line) :: appended trace'
  | _ :: trace' => appended trace'
  end.

(** The elements of an array that are not holes. *)
Definition elements (a : JsArray) : list string :=
  flat_map (fun e => match e with Some s => [s] | None => [] end) a.

Definition strip_query (u : string) : string := JsString.before_first "?" u.

(** No two entries are equal once their query strings are stripped, and
    no entry holds the size placeholder. *)
Definition clean_images (l : list string) : Prop :=
  NoDup (map strip_query l)
  /\ Forall (fun u => JsString.includes "{width}" u = false) l.

(** The condition and the normalisation of [addValidImageUrl]. *)
Definition accepted (imgSrc : string) : bool :=
  JsString.truthy imgSrc && negb (JsString.includes "{width}" imgSrc).

Definition normalised (imgSrc : string) : string :=
  JsString.before_first "?"
    (if JsString.startsWith "http" imgSrc then imgSrc else ("https:" ++ imgSrc)%string).

(** The attribute values variant C accepts, in the order it reads them. *)
Definition candidates_C (doc : Document) : list string :=
  let primary := filter accepted (slideshow_original_src doc) in
  primary
  ++ match primary with
     | [] => filter accepted (gallery_src doc)
     | _ => []
     end
  ++ filter accepted (lazy_data_src doc).

(** First-seen order: each value stays where it first occurs. *)
Fixpoint first_seen (l : list string) : list string :=
  match l with
  | [] => []
  | x :: l' => x :: filter (fun y => negb (String.eqb y x)) (first_seen l')
  end.

(** A conversion to run the model with: exact on strings of decimal
    digits, which is all the examples below assign to a [length]. *)
Definition decimal_length (v : string) : option nat :=
  match JsValue.parse_digits 0%N v with
  | Some n => if (n <? 4294967296)%N then Some (N.to_nat n) else None
  | None => None
  end.

(** *** Sample pages *)

Definition heading_row (text : string) : Row :=
  {| strong_text := Some text; row_text := text; cells := [text] |}.

Definition pair_row (k v : string) : Row :=
  {| strong_text := None; row_text := (k ++ " " ++ v)%string; cells := [k; v] |}.

Definition page_with (srcs : list string) (tabs : list Table) : Document :=
  {| title := Some "Filter"; sku := Some "F-1";
     slideshow_original_src := srcs; gallery_src := []; lazy_data_src := [];
     tables := tabs |}.

(** The table of the OEM scenario. *)
Definition oem_table (k v : string) : Table :=
  [heading_row "OEM Part Number Cross References"; pair_row k v].

(** A table headed [Images], and one headed [__proto__]. *)
Definition images_table : Table := [heading_row "Images"; pair_row "0" "junk"].
Definition proto_table : Table := [heading_row "__proto__"; pair_row "Category" "junk"].

(** A file system whose [logs/] directory takes every line, and one where
    the directory is missing. *)
Definition logs_writable : nat -> nat -> option string := fun _ _ => None.

Definition logs_missing : nat -> nat -> option string :=
  fun _ _ => Some "ENOENT: no such file or directory".

(** A browser that never renders, and one that renders [doc] every time. *)
Definition always_timeout : nat -> string -> Response :=
  fun _ _ => NavigationError "Navigation timeout of 30000 ms exceeded".

Definition always_renders (doc : Document) : nat -> string -> Response :=
  fun _ _ => Rendered doc.

(** A browser whose [k]-th navigation renders [doc] and whose other
    navigations time out. *)
Definition renders_at (k : nat) (doc : Document) : nat -> string -> Response :=
  fun n _ => if n =? k then Rendered doc
             else NavigationError "Navigation timeout of 30000 ms exceeded".

Definition product_url : string := "https://shop.example/products/filter-100".
Definition collection_url : string := "https://shop.example/collections/filters".

Definition run_date : string := "2026-11-02".

(** 120 targets. *)
Definition many_targets : list Target := repeat {| product_link := product_url |} 120.

(** Slideshow sources that differ in their query strings only and hold
    the size placeholder. *)
Definition templated_sources : list string :=
  ["//cdn.example/a_{width}x.jpg?v=1"; "//cdn.example/a_{width}x.jpg?v=2"].

(** A page with two sizes of one picture and the OEM table. *)
Definition oem_page : Document :=
  {| title := Some "Filter"; sku := Some "F-1";
     slideshow_original_src := ["//cdn.example/a.jpg?v=1"; "//cdn.example/a.jpg?v=2"];
     gallery_src := []; lazy_data_src := ["//cdn.example/a_{width}x.jpg"];
     tables := [oem_table "ABC-100" "XYZ-9"] |}.

(** ** Variant B: [scrapeProduct] and the main function

    The second listing of [src/unimed-scraper.js]: one attempt per target,
    no delay, one browser for the whole run.  Its callback is the one of
    variant A. *)

Section VariantB.

Variable array_length_of : string -> option nat.
Variable page : nat -> string -> Response.

Definition scrapeProduct_B (url : string) : M (option ProductData) :=
  r <- navigate page url ;;
  match r with
  | Rendered d => ret (Some (extract_A array_length_of d))
  | _ =>
      emit (Console (ErrorScraping url (error_message r))) ;;;
      ret None
  end.

(** The [for ... of] loop.  [scrapeProduct] returns [null] from its own
    [catch], so the [catch] of the loop body has nothing to catch. *)
Fixpoint main_loop_B (productLinks : list Target)
  (scrapedData : list Scraped) (failedLinks : list string)
  : M (list Scraped * list string) :=
  match productLinks with
  | [] => ret (scrapedData, failedLinks)
  | product :: rest =>
      let url := product_link product in
      emit (Console (ScrapingUrl url)) ;;;
      data <- scrapeProduct_B url ;;
      match data with
      | Some d =>
          main_loop_B rest (scrapedData ++ [{| url := url; scraped_data := d |}]) failedLinks
      | None =>
          emit (Console (ScrapingFailed url)) ;;;
          main_loop_B rest scrapedData (failedLinks ++ [url])
      end
  end.

(** The files are written under [results/] and [failed/]; the messages
    name them without the directory. *)
Definition save_B (currentDate : string) (scrapedData : list Scraped)
  (failedLinks : list string) : M unit :=
  emit (WriteFile (results_path_A currentDate) (JScraped scrapedData)) ;;;
  emit (Console (SavedScraped (formatted_path "products_" currentDate ".json"))) ;;;
  match failedLinks with
  | _ :: _ =>
      emit (WriteFile (failed_path_A currentDate) (JUrls failedLinks)) ;;;
      emit (Console (SavedFailed (formatted_path "failed_links_" currentDate ".json")))
  | [] => emit (Console NoFailedLinks)
  end.

Definition main_B (currentDate : string) (productLinks : list Target)
  : M (list Scraped * list string) :=
  emits [BrowserLaunch false; NewPage] ;;;
  out <- main_loop_B productLinks [] [] ;;
  emit BrowserClose ;;;
  save_B currentDate (fst out) (snd out) ;;;
  ret out.

End VariantB.

(** ** Further observations *)

Definition is_launch (e : Event) : bool :=
  match e with
  | BrowserLaunch _ => true
  | _ => false
  end.

Definition is_close (e : Event) : bool :=
  match e with
  | BrowserClose => true
  | _ => false
  end.

Definition is_delay (e : Event) : bool :=
  match e with
  | Delay _ => true
  | _ => false
  end.

Definition count (p : Event -> bool) (trace : list Event) : nat :=
  List.length (filter p trace).

(** The records of variant C that went to the log for want of an image. *)
Definition imageless (e : ScrapedC) : bool :=
  match images (product (data_C e)) with
  | [] => true
  | _ => false
  end.

(** The progress messages of a trace: position, total and URL. *)
Fixpoint progress (trace : list Event) : list (nat * nat * string) :=
  match trace with
  | [] => []
  | Console (ScrapingAt position total url) :: trace' =>
      (position, total, url) :: progress trace'
  | _ :: trace' => progress trace'
  end.

(** The date a record or a failed entry of variant C carries, and the file a
    log line went to. *)
Definition dated (date : string) (e : ScrapedC) : Prop := scrape_date (data_C e) = date.
Definition stamped (date : string) (f : FailedC) : Prop := timestamp f = date.
Definition in_log (date : string) (entry : string * string) : Prop :=
  fst entry = log_path date.

(** The key-value pairs that the row loop of variants A, B and C reads off
    the rows it is given: one per row of exactly two cells. *)
Definition pairs_of (rows : list Row) : list (string * string) :=
  flat_map (fun r => match cells r with
                     | [c0; c1] => [(key_of_cell c0, JsString.trim c1)]
                     | _ => []
                     end) rows.

(** The pairs of the tables of [tabs] whose section name is that of [k],
    in document order; the first row of a table is not read. *)
Definition section_rows (k : SectionKind) (tabs : list Table) : list (string * string) :=
  flat_map (fun rows => if String.eqb (sectionName_of rows) (section_name k)
                        then pairs_of (tl rows) else []) tabs.

(** Assigning the pairs of [l] to [o] one after the other. *)
Definition fill (o : JsObject) (l : list (string * string)) : JsObject :=
  fold_left (fun o kv => JsValue.object_put o (fst kv) (snd kv)) l o.

(** The section names under which [data[sectionName]] is an object other
    than a section: the image array, [Object.prototype], [Object] and the
    methods of [Object.prototype]. *)
Definition reaches_beyond_sections (sectionName : string) : bool :=
  Realms.mem sectionName
    ("images" :: "__proto__" :: "constructor" :: Realms.object_prototype_methods).

(** The same for [tempData[sectionName]] of variant D. *)
Definition reaches_beyond_tempData (sectionName : string) : bool :=
  Realms.mem sectionName ("__proto__" :: "constructor" :: Realms.object_prototype_methods).

(** Variant D: every row counts, the first one too, and a row whose key
    is empty is passed over; keys are trimmed and nothing else. *)
Definition pairs_D (rows : list Row) : list (string * string) :=
  flat_map (fun r => match cells r with
                     | [c0; c1] =>
                         if JsString.truthy (JsString.trim c0)
                         then [(JsString.trim c0, JsString.trim c1)] else []
                     | _ => []
                     end) rows.

Definition section_rows_D (k : SectionKind) (tabs : list Table) : list (string * string) :=
  flat_map (fun rows => if String.eqb (sectionName_D rows) (section_name k)
                        then pairs_D rows else []) tabs.

(** The value of the last pair of [l] whose key is [key]. *)
Fixpoint last_value (l : list (string * string)) (key : string) : option string :=
  match l with
  | [] => None
  | (k, v) :: l' =>
      match last_value l' key with
      | Some v' => Some v'
      | None => if String.eqb k key then Some v else None
      end
  end.

Definition is_upper (c : ascii) : bool :=
  let n := nat_of_ascii c in (65 <=? n) && (n <=? 90).

Fixpoint string_forall (p : ascii -> bool) (s : string) : bool :=
  match s with
  | EmptyString => true
  | String c s' => p c && string_forall p s'
  end.

(** * Properties *)

(** ** The monad *)

Lemma bind_value {A B : Type} (m : M A) (f : A -> M B) (n : nat) :
  value_of (bind m f n) = value_of (f (value_of (m n)) (clock_of (m n))).
Proof.
  unfold bind, value_of, clock_of.
  destruct (m n) as [[a n1] w1]; cbn.
  destruct (f a n1) as [[b n2] w2]; reflexivity.
Qed.

Lemma bind_clock {A B : Type} (m : M A) (f : A -> M B) (n : nat) :
  clock_of (bind m f n) = clock_of (f (value_of (m n)) (clock_of (m n))).
Proof.
  unfold bind, value_of, clock_of.
  destruct (m n) as [[a n1] w1]; cbn.
  destruct (f a n1) as [[b n2] w2]; reflexivity.
Qed.

Lemma bind_events {A B : Type} (m : M A) (f : A -> M B) (n : nat) :
  events_of (bind m f n)
  = events_of (m n) ++ events_of (f (value_of (m n)) (clock_of (m n))).
Proof.
  unfold bind, value_of, clock_of, events_of.
  destruct (m n) as [[a n1] w1]; cbn.
  destruct (f a n1) as [[b n2] w2]; reflexivity.
Qed.

Lemma run_eta {A : Type} (r : A * nat * list Event) :
  r = (value_of r, clock_of r, events_of r).
Proof. destruct r as [[a n] w]; reflexivity. Qed.

Lemma maybe_recycle_clock (c : bool) (n : nat) :
  clock_of ((if c then recycle else ret tt) n) = n.
Proof. destruct c; reflexivity. Qed.

Lemma maybe_recycle_events (c : bool) (n : nat) :
  events_of ((if c then recycle else ret tt) n)
  = if c then [Console Restarting; BrowserClose; BrowserLaunch true; NewPage;
               SetUserAgent; SetExtraHTTPHeaders; EvaluateOnNewDocument]
    else [].
Proof. destruct c; reflexivity. Qed.

Create Rewrite HintDb run.
#[local] Hint Rewrite @bind_value @bind_clock @bind_events maybe_recycle_clock
  maybe_recycle_events : run.

(** ** Interleavings *)

Lemma Interleave_Permutation {A : Type} (l r m : list A) :
  Interleave l r m -> Permutation (l ++ r) m.
Proof.
  induction 1 as [| x l r m _ IH | x l r m _ IH]; cbn.
  - constructor.
  - now constructor.
  - apply Permutation_sym, Permutation_cons_app, Permutation_sym, IH.
Qed.

Lemma Interleave_select {A : Type} (l r m : list A) :
  Interleave l r m ->
  exists flags, List.length flags = List.length m
                /\ l = select true m flags /\ r = select false m flags.
Proof.
  induction 1 as [| x l r m _ (flags & Hlen & Hl & Hr) | x l r m _ (flags & Hlen & Hl & Hr)].
  - exists []; repeat split.
  - exists (true :: flags); cbn; repeat split; congruence.
  - exists (false :: flags); cbn; repeat split; congruence.
Qed.

Section Loops.

Variable array_length_of : string -> option nat.
Variable page : nat -> string -> Response.
Variable append_error : nat -> nat -> option string.

Lemma main_loop_A_shuffle (total : nat) (productLinks : list Target) :
  forall i scrapedData failedLinks n,
  exists sd fl,
    value_of (main_loop_A array_length_of page total i productLinks scrapedData failedLinks n)
    = (scrapedData ++ sd, failedLinks ++ fl)
    /\ Interleave (map url sd) fl (map product_link productLinks).
Proof.
  induction productLinks as [| product rest IH]; intros i sd0 fl0 n.
  - exists [], []; cbn; rewrite !app_nil_r; split; [reflexivity | constructor].
  - cbn [main_loop_A]; autorewrite with run.
    destruct (value_of (scrapeProduct_A _ _ _ _)) as [d |].
    + edestruct IH as (sd & fl & Hv & Hi); rewrite Hv.
      exists ({| url := product_link product; scraped_data := d |} :: sd), fl.
      rewrite <- app_assoc; split; [reflexivity | now constructor].
    + autorewrite with run.
      edestruct IH as (sd & fl & Hv & Hi); rewrite Hv.
      exists sd, (product_link product :: fl).
      rewrite <- app_assoc; split; [reflexivity | now constructor].
Qed.

Lemma main_loop_C_shuffle (formattedDate : string) (productLinks : list Target) :
  forall scrapedData failedLinks n,
  exists sd fl,
    value_of (main_loop_C array_length_of page append_error formattedDate productLinks
                scrapedData failedLinks n)
    = (scrapedData ++ sd, failedLinks ++ fl)
    /\ Interleave (map url_C sd) (map failed_url fl) (map product_link productLinks).
Proof.
  induction productLinks as [| product rest IH]; intros sd0 fl0 n.
  - exists [], []; cbn; rewrite !app_nil_r; split; [reflexivity | constructor].
  - cbn [main_loop_C]; autorewrite with run.
    destruct (value_of (scrapeProduct_C _ _ _ _ _ _)) as [[d |] | message].
    + edestruct IH as (sd & fl & Hv & Hi); rewrite Hv.
      exists ({| url_C := product_link product; data_C := d |} :: sd), fl.
      rewrite <- app_assoc; split; [reflexivity | now constructor].
    + autorewrite with run.
      edestruct IH as (sd & fl & Hv & Hi); rewrite Hv.
      exists sd, ({| failed_url := product_link product; timestamp := formattedDate |} :: fl).
      rewrite <- app_assoc; split; [reflexivity | now constructor].
    + autorewrite with run.
      edestruct IH as (sd & fl & Hv & Hi); rewrite Hv.
      exists sd, ({| failed_url := product_link product; timestamp := formattedDate |} :: fl).
      rewrite <- app_assoc; split; [reflexivity | now constructor].
Qed.

Lemma main_loop_D_shuffle (total : nat) (productLinks : list Target) :
  forall i scrapedData failedLinks n,
  exists sd fl,
    value_of (main_loop_D page total i productLinks scrapedData failedLinks n)
    = (scrapedData ++ sd, failedLinks ++ fl)
    /\ Interleave (map url_D sd) fl (map product_link productLinks).
Proof.
  induction productLinks as [| product rest IH]; intros i sd0 fl0 n.
  - exists [], []; cbn; rewrite !app_nil_r; split; [reflexivity | constructor].
  - cbn [main_loop_D]; autorewrite with run.
    destruct (value_of (scrapeProduct_D _ _ _)) as [d |].
    + edestruct IH as (sd & fl & Hv & Hi); rewrite Hv.
      exists ({| url_D := product_link product; id := id_of_url (product_link product);
                 data_D := d |} :: sd), fl.
      rewrite <- app_assoc; split; [reflexivity | now constructor].
    + autorewrite with run.
      edestruct IH as (sd & fl & Hv & Hi); rewrite Hv.
      exists sd, (product_link product :: fl).
      rewrite <- app_assoc; split; [reflexivity | now constructor].
Qed.

(** The value of a run is the value its loop returns. *)
Lemma main_A_value (currentDate : string) (productLinks : list Target) (n : nat) :
  value_of (main_A array_length_of page currentDate productLinks n)
  = value_of (main_loop_A array_length_of page (List.length productLinks) 0 productLinks [] [] n).
Proof. unfold main_A; autorewrite with run; reflexivity. Qed.

Lemma main_C_value (formattedDate : string) (productLinks : list Target) (n : nat) :
  value_of (main_C array_length_of page append_error formattedDate productLinks n)
  = value_of (main_loop_C array_length_of page append_error formattedDate productLinks [] [] n).
Proof. unfold main_C; autorewrite with run; reflexivity. Qed.

Lemma main_D_value (currentDate : string) (productLinks : list Target) (n : nat) :
  value_of (main_D page currentDate productLinks n)
  = value_of (main_loop_D page (List.length productLinks) 0 productLinks [] [] n).
Proof. unfold main_D; autorewrite with run; reflexivity. Qed.

Lemma main_A_shuffle (currentDate : string) (productLinks : list Target) (n : nat) :
  let out := value_of (main_A array_length_of page currentDate productLinks n) in
  Interleave (map url (fst out)) (snd out) (map product_link productLinks).
Proof.
  cbv zeta; rewrite main_A_value.
  destruct (main_loop_A_shuffle (List.length productLinks) productLinks 0 [] [] n)
    as (sd & fl & Hv & Hi).
  now rewrite Hv.
Qed.

Lemma main_C_shuffle (formattedDate : string) (productLinks : list Target) (n : nat) :
  let out := value_of (main_C array_length_of page append_error formattedDate productLinks n) in
  Interleave (map url_C (fst out)) (map failed_url (snd out)) (map product_link productLinks).
Proof.
  cbv zeta; rewrite main_C_value.
  destruct (main_loop_C_shuffle formattedDate productLinks [] [] n) as (sd & fl & Hv & Hi).
  now rewrite Hv.
Qed.

Lemma main_D_shuffle (currentDate : string) (productLinks : list Target) (n : nat) :
  let out := value_of (main_D page currentDate productLinks n) in
  Interleave (map url_D (fst out)) (snd out) (map product_link productLinks).
Proof.
  cbv zeta; rewrite main_D_value.
  destruct (main_loop_D_shuffle (List.length productLinks) productLinks 0 [] [] n)
    as (sd & fl & Hv & Hi).
  now rewrite Hv.
Qed.



End Loops.

(** ** The retry loop *)

Section Retry.

Variable page : nat -> string -> Response.
Context {R : Type} (callback : Document -> R).

Lemma failed_from_S (url : string) (attempts n k : nat) :
  failed_from page url attempts n (S k)
  = attempt_events url (page n url)
    ++ [Console (ErrorScrapingAttempt url (attempts + 1) RETRY_LIMIT (error_message (page n url)));
        Delay 2000]
    ++ failed_from page url (attempts + 1) (S n) k.
Proof.
  unfold failed_from; cbn [seq flat_map].
  rewrite <- seq_shift, flat_map_concat_map, map_map, <- flat_map_concat_map.
  unfold failed_attempt at 1; rewrite !Nat.add_0_r, <- app_assoc.
  apply f_equal; cbn [app]; do 2 apply f_equal.
  apply flat_map_ext; intros j; unfold failed_attempt.
  now replace (n + S j) with (S n + j) by lia;
    replace (attempts + S j + 1) with (attempts + 1 + j + 1) by lia.
Qed.

Lemma attempts_loop_exhausted (url : string) (remaining : nat) :
  forall attempts n,
    (forall j, j < remaining -> is_rendered (page (n + j) url) = false) ->
    attempts_loop page callback url remaining attempts n
    = (None, n + remaining, failed_from page url attempts n remaining).
Proof.
  induction remaining as [| remaining IH]; intros attempts n Hfail.
  - cbn; now rewrite Nat.add_0_r.
  - rewrite failed_from_S.
    assert (Hnow : is_rendered (page n url) = false)
      by (rewrite <- (Nat.add_0_r n); apply Hfail; lia).
    assert (Hlater : forall j, j < remaining -> is_rendered (page (S n + j) url) = false)
      by (intros j Hj; replace (S n + j) with (n + S j) by lia; apply Hfail; lia).
    cbn [attempts_loop]; unfold bind at 1, navigate at 1.
    destruct (page n url) eqn:E; try discriminate Hnow;
      cbn; rewrite (IH (attempts + 1) (S n) Hlater);
      now replace (S n + remaining) with (n + S remaining) by lia.
Qed.

Lemma attempts_loop_success (url : string) (k : nat) :
  forall remaining attempts n d,
    k < remaining ->
    (forall j, j < k -> is_rendered (page (n + j) url) = false) ->
    page (n + k) url = Rendered d ->
    attempts_loop page callback url remaining attempts n
    = (Some (callback d), n + k + 1,
       failed_from page url attempts n k ++ [Goto url; WaitForSelector; Evaluate]).
Proof.
  induction k as [| k IH]; intros remaining attempts n d Hk Hfail Hok;
    destruct remaining as [| remaining]; try lia.
  - rewrite Nat.add_0_r in Hok.
    cbn [attempts_loop]; unfold bind at 1, navigate at 1; rewrite Hok; cbn.
    now replace (n + 0 + 1) with (S n) by lia.
  - rewrite failed_from_S.
    assert (Hnow : is_rendered (page n url) = false)
      by (rewrite <- (Nat.add_0_r n); apply Hfail; lia).
    assert (Hlater : forall j, j < k -> is_rendered (page (S n + j) url) = false)
      by (intros j Hj; replace (S n + j) with (n + S j) by lia; apply Hfail; lia).
    assert (Hok' : page (S n + k) url = Rendered d)
      by (now replace (S n + k) with (n + S k) by lia).
    cbn [attempts_loop]; unfold bind at 1, navigate at 1.
    destruct (page n url) eqn:E; try discriminate Hnow;
      cbn; rewrite (IH remaining (attempts + 1) (S n) d ltac:(lia) Hlater Hok');
      replace (S n + k + 1) with (n + S k + 1) by lia;
      rewrite <- ?app_assoc; reflexivity.
Qed.

Lemma gotos_of_failed_attempts (url : string) (n k : nat) :
  List.length (filter is_goto (failed_attempts page url n k)) = k.
Proof.
  unfold failed_attempts, failed_from.
  assert (H : forall l, List.length (filter is_goto (flat_map (failed_attempt page url 0 n) l))
                        = List.length l).
  { induction l as [| j l IH]; [reflexivity |].
    cbn [flat_map]; rewrite filter_app, length_app, IH.
    unfold failed_attempt; destruct (page (n + j) url); reflexivity. }
  now rewrite H, length_seq.
Qed.

End Retry.

(** ** Session recycling *)

Lemma recycled_at_neutral (l t : list Event) (session : Session) :
  forallb neutral l = true -> recycled_at session (l ++ t) = recycled_at session t.
Proof.
  induction l as [| e l IH]; [reflexivity |].
  cbn [forallb]; intros [He Hl]%andb_prop.
  destruct e as [| | | | | | | | | | m | |]; try discriminate He; cbn; auto.
  destruct m; try discriminate He; cbn; auto.
Qed.

Lemma writes_neutral (l t : list Event) :
  forallb neutral l = true -> writes (l ++ t) = writes t.
Proof.
  induction l as [| e l IH]; [reflexivity |].
  cbn [forallb]; intros [He Hl]%andb_prop.
  destruct e; try discriminate He; cbn; auto.
Qed.

Lemma attempt_events_neutral (url : string) (r : Response) :
  forallb neutral (attempt_events url r) = true.
Proof. destruct r; reflexivity. Qed.

Lemma attempts_loop_neutral (page : nat -> string -> Response) {R : Type}
  (callback : Document -> R) (url : string) (remaining : nat) :
  forall attempts n,
    forallb neutral (events_of (attempts_loop page callback url remaining attempts n)) = true.
Proof.
  induction remaining as [| remaining IH]; intros attempts n; [reflexivity |].
  cbn [attempts_loop]; autorewrite with run.
  rewrite forallb_app; apply andb_true_intro; split.
  - apply attempt_events_neutral.
  - unfold navigate at 1 2; unfold value_of at 1 3, clock_of at 1; cbn [fst snd].
    destruct (page n url); try reflexivity;
      autorewrite with run; cbn; apply IH.
Qed.

Section Recycling.

Variable array_length_of : string -> option nat.
Variable page : nat -> string -> Response.

Lemma seq_filter_S (i len : nat) :
  filter nonzero_multiple (seq i (S len))
  = (if nonzero_multiple i then [i] else []) ++ filter nonzero_multiple (seq (S i) len).
Proof. cbn [seq filter]; now destruct (nonzero_multiple i). Qed.

(** The step of the induction over the loop of variants A and D; [scrape]
    is the [scrapeProduct] of the variant. *)
Ltac loop_recycles IH scrape :=
  let Hrest := fresh "Hrest" in
  match goal with
  | |- context [Console (ScrapingAt (?i + 1) ?total ?u)] =>
      assert (Hrest : forall l,
                 recycled_at Live
                   ((if nonzero_multiple i
                     then [Console Restarting; BrowserClose; BrowserLaunch true; NewPage;
                           SetUserAgent; SetExtraHTTPHeaders; EvaluateOnNewDocument]
                     else []) ++ Console (ScrapingAt (i + 1) total u) :: l)
                 = (if nonzero_multiple i then [i] else []) ++ recycled_at Live l)
        by (intros l; destruct (nonzero_multiple i); cbn; [| reflexivity];
            now replace (i + 1 - 1) with i by lia);
      cbn [events_of emit delay snd app]; rewrite <- !app_assoc; cbn [app];
      rewrite Hrest; f_equal;
      change (Delay DELAY_MS :: ?l) with ([Delay DELAY_MS] ++ l);
      rewrite recycled_at_neutral by reflexivity;
      rewrite <- ?app_assoc;
      rewrite recycled_at_neutral by (unfold scrape; apply attempts_loop_neutral);
      replace (i + 1) with (S i) by lia;
      match goal with
      | |- context [match ?v with Some _ => _ | None => _ end] =>
          destruct v; [apply IH |]
      end;
      autorewrite with run; cbn [events_of emit snd app recycled_at];
      apply (IH (S i))
  end.

Lemma main_loop_A_recycles (total : nat) (productLinks : list Target) :
  forall i scrapedData failedLinks n t,
    recycled_at Live
      (events_of (main_loop_A array_length_of page total i productLinks scrapedData failedLinks n)
       ++ t)
    = filter nonzero_multiple (seq i (List.length productLinks)) ++ recycled_at Live t.
Proof.
  induction productLinks as [| product rest IH]; intros i sd fl n t; [reflexivity |].
  cbn [main_loop_A List.length]; rewrite seq_filter_S; autorewrite with run.
  fold (nonzero_multiple i).
  loop_recycles IH scrapeProduct_A.
Qed.

Lemma main_loop_D_recycles (total : nat) (productLinks : list Target) :
  forall i scrapedData failedLinks n t,
    recycled_at Live
      (events_of (main_loop_D page total i productLinks scrapedData failedLinks n) ++ t)
    = filter nonzero_multiple (seq i (List.length productLinks)) ++ recycled_at Live t.
Proof.
  induction productLinks as [| product rest IH]; intros i sd fl n t; [reflexivity |].
  cbn [main_loop_D List.length]; rewrite seq_filter_S; autorewrite with run.
  fold (nonzero_multiple i).
  loop_recycles IH scrapeProduct_D.
Qed.

Lemma save_A_recycles (date : string) (sd : list Scraped) (fl : list string) (n : nat) :
  recycled_at Live (BrowserClose :: events_of (save_A date sd fl n)) = [].
Proof. destruct fl; reflexivity. Qed.

Lemma save_D_recycles (date : string) (sd : list ScrapedD) (fl : list string) (n : nat) :
  recycled_at Live (BrowserClose :: events_of (save_D date sd fl n)) = [].
Proof. destruct fl; reflexivity. Qed.

Lemma main_A_recycles (date : string) (productLinks : list Target) (n : nat) :
  recycled_at Live (events_of (main_A array_length_of page date productLinks n))
  = filter nonzero_multiple (seq 0 (List.length productLinks)).
Proof.
  unfold main_A; autorewrite with run.
  cbn [events_of open_session emits emit ret snd app recycled_at].
  rewrite app_nil_r.
  change (BrowserClose :: ?l) with ([BrowserClose] ++ l).
  rewrite main_loop_A_recycles; cbn [app].
  now rewrite save_A_recycles, app_nil_r.
Qed.

Lemma main_D_recycles (date : string) (productLinks : list Target) (n : nat) :
  recycled_at Live (events_of (main_D page date productLinks n))
  = filter nonzero_multiple (seq 0 (List.length productLinks)).
Proof.
  unfold main_D; autorewrite with run.
  cbn [events_of open_session emits emit ret snd app recycled_at].
  rewrite app_nil_r.
  change (BrowserClose :: ?l) with ([BrowserClose] ++ l).
  rewrite main_loop_D_recycles; cbn [app].
  now rewrite save_D_recycles, app_nil_r.
Qed.

(** C3.  In variants A and D the progress messages that follow a
    [browser.close()] and the launch of a new browser are those of the
    0-based indices that are nonzero multiples of [BATCH_SIZE = 50],
    whatever the input; over 120 targets these are the indices 50 and 100
    and no other, index 0 not among them. *)
Theorem C3_recycles_at_batch_boundaries (date : string) (productLinks : list Target)
  (n : nat) :
  let trace_A := events_of (main_A array_length_of page date productLinks n) in
  let trace_D := events_of (main_D page date productLinks n) in
  let indices := seq 0 (List.length productLinks) in
  BATCH_SIZE = 50
  /\ recycled_at Live trace_A
     = filter (fun i => (i mod 50 =? 0) && negb (i =? 0)) indices
  /\ recycled_at Live trace_D
     = filter (fun i => (i mod 50 =? 0) && negb (i =? 0)) indices
  /\ (List.length productLinks = 120 ->
      recycled_at Live trace_A = [50; 100] /\ recycled_at Live trace_D = [50; 100]).
Proof.
  cbv zeta; rewrite main_A_recycles, main_D_recycles.
  do 3 (split; [reflexivity |]).
  intros Hlen; rewrite Hlen; split; reflexivity.
Qed.

End Recycling.

(** ** Bounded retries *)

(** C2.  [scrapeProduct] of variants A and D on a target none of whose
    [RETRY_LIMIT = 3] attempts renders: it navigates three times, each
    failed attempt being followed by [delay(2000)], and returns [null].
    When the attempt number [k] (counted from 0, [k < 3]) is the first to
    render, the record extracted from that page is returned after exactly
    [k] failed attempts and nothing follows the successful one. *)
Theorem C2_bounded_retries (array_length_of : string -> option nat)
  (page : nat -> string -> Response) (url : string) (n : nat) :
  ((forall j, j < RETRY_LIMIT -> is_rendered (page (n + j) url) = false) ->
   scrapeProduct_A array_length_of page url n
   = (None, n + 3, failed_attempts page url n 3)
   /\ scrapeProduct_D page url n = (None, n + 3, failed_attempts page url n 3)
   /\ failed_attempts page url n 3
      = failed_attempt page url 0 n 0 ++ failed_attempt page url 0 n 1
        ++ failed_attempt page url 0 n 2
   /\ List.length (filter is_goto (failed_attempts page url n 3)) = 3)
  /\ (forall k d,
        k < RETRY_LIMIT ->
        (forall j, j < k -> is_rendered (page (n + j) url) = false) ->
        page (n + k) url = Rendered d ->
        scrapeProduct_A array_length_of page url n
        = (Some (extract_A array_length_of d), n + k + 1,
           failed_attempts page url n k ++ [Goto url; WaitForSelector; Evaluate])
        /\ scrapeProduct_D page url n
           = (Some (extract_D d), n + k + 1,
              failed_attempts page url n k ++ [Goto url; WaitForSelector; Evaluate])).
Proof.
  split.
  - intros Hfail; repeat split.
    + apply (attempts_loop_exhausted page (extract_A array_length_of) url RETRY_LIMIT 0 n Hfail).
    + apply (attempts_loop_exhausted page extract_D url RETRY_LIMIT 0 n Hfail).
    + unfold failed_attempts, failed_from; cbn [seq flat_map]; now rewrite app_nil_r.
    + apply gotos_of_failed_attempts.
  - intros k d Hk Hfail Hok; split.
    + apply (attempts_loop_success page (extract_A array_length_of) url k RETRY_LIMIT 0 n d
               Hk Hfail Hok).
    + apply (attempts_loop_success page extract_D url k RETRY_LIMIT 0 n d Hk Hfail Hok).
Qed.

(** ** Strings *)

Lemma append_nil_r (s : string) : (s ++ EmptyString)%string = s.
Proof. induction s as [| c s IH]; cbn; congruence. Qed.

Lemma append_assoc (a b c : string) : ((a ++ b) ++ c)%string = (a ++ (b ++ c))%string.
Proof. induction a as [| x a IH]; cbn; congruence. Qed.

Lemma startsWith_app (u s : string) : JsString.startsWith u (u ++ s) = true.
Proof. induction u as [| c u IH]; cbn; [reflexivity |]. now rewrite Ascii.eqb_refl. Qed.

Lemma includes_startsWith (u s : string) :
  JsString.startsWith u s = true -> JsString.includes u s = true.
Proof. intros H; destruct s; cbn; now rewrite H. Qed.

Lemma includes_tail (u : string) (c : ascii) (s : string) :
  JsString.includes u s = true -> JsString.includes u (String c s) = true.
Proof. intros H; cbn [JsString.includes]; rewrite H; now destruct (JsString.startsWith _ _). Qed.

Lemma includes_app_r (u a s : string) :
  JsString.includes u s = true -> JsString.includes u (a ++ s) = true.
Proof. intros H; induction a as [| c a IH]; cbn [append]; [exact H | now apply includes_tail]. Qed.

Lemma includes_cons_false (u : string) (c : ascii) (s : string) :
  JsString.includes u (String c s) = false ->
  JsString.startsWith u (String c s) = false /\ JsString.includes u s = false.
Proof.
  cbn [JsString.includes]; destruct (JsString.startsWith u (String c s)); [discriminate |].
  now split.
Qed.

Lemma split_without_separator (sep s : string) :
  forall cur, JsString.includes sep s = false ->
              JsString.split_from sep 0 cur s = [(cur ++ s)%string].
Proof.
  induction s as [| c s IH]; intros cur H.
  - cbn; now rewrite append_nil_r.
  - apply includes_cons_false in H as [Hs Hi].
    cbn [JsString.split_from]; rewrite Hs, (IH _ Hi), append_assoc; reflexivity.
Qed.

Lemma startsWith_before_first (u : string) (c : ascii) :
  forall s, JsString.startsWith u (JsString.before_first c s) = true ->
            JsString.startsWith u s = true.
Proof.
  induction u as [| a u IH]; intros s; [reflexivity |].
  destruct s as [| d s]; cbn; [discriminate |].
  destruct (Ascii.eqb d c); cbn; [discriminate |].
  intros [Ha Hu]%andb_prop; rewrite Ha; cbn; now apply IH.
Qed.

Lemma includes_before_first (u : string) (c : ascii) :
  forall s, JsString.includes u (JsString.before_first c s) = true ->
            JsString.includes u s = true.
Proof.
  induction s as [| d s IH]; [easy |].
  intros H.
  destruct (JsString.startsWith u (JsString.before_first c (String d s))) eqn:Hs.
  - apply includes_startsWith, (startsWith_before_first u c), Hs.
  - cbn [JsString.before_first] in H, Hs.
    destruct (Ascii.eqb d c).
    + cbn in H; rewrite Hs in H; discriminate.
    + cbn [JsString.includes] in H; rewrite Hs in H.
      now apply includes_tail, IH.
Qed.

Lemma before_first_idempotent (c : ascii) (s : string) :
  JsString.before_first c (JsString.before_first c s) = JsString.before_first c s.
Proof.
  induction s as [| d s IH]; [reflexivity |].
  cbn; destruct (Ascii.eqb d c) eqn:E; [reflexivity |].
  cbn; now rewrite E, IH.
Qed.

(** ** The output phase *)

Lemma writes_app (l t : list Event) : writes (l ++ t) = writes l ++ writes t.
Proof.
  induction l as [| e l IH]; [reflexivity |].
  destruct e; cbn; now rewrite ?IH.
Qed.

Lemma writes_of_neutral (l : list Event) : forallb neutral l = true -> writes l = [].
Proof. intros H; rewrite <- (app_nil_r l); now rewrite writes_neutral. Qed.

(** Splits a goal about a call of [scrapeProduct] of variant C into the
    ways through the call. *)
Ltac settle_scrapeProduct_C page append_error :=
  unfold scrapeProduct_C, scrapeProduct_C_catch, logErrorToFile, bind, navigate, ret;
  repeat match goal with
         | |- context [match page ?n ?u with _ => _ end] => destruct (page n u)
         | |- context [match images ?d with _ => _ end] => destruct (images d)
         | |- context [match append_error ?n ?k with _ => _ end] =>
             destruct (append_error n k)
         end.

Section Output.

Variable array_length_of : string -> option nat.
Variable page : nat -> string -> Response.
Variable append_error : nat -> nat -> option string.

Lemma scrapeProduct_C_neutral (date url : string) (n : nat) :
  forallb neutral (events_of (scrapeProduct_C array_length_of page append_error date url n))
  = true.
Proof. settle_scrapeProduct_C page append_error; reflexivity. Qed.

Lemma scrapeProduct_C_writes (date url : string) (n : nat) :
  writes (events_of (scrapeProduct_C array_length_of page append_error date url n)) = [].
Proof. apply writes_of_neutral, scrapeProduct_C_neutral. Qed.

Lemma maybe_recycle_writes (c : bool) :
  writes (if c then [Console Restarting; BrowserClose; BrowserLaunch true; NewPage;
                     SetUserAgent; SetExtraHTTPHeaders; EvaluateOnNewDocument]
          else []) = [].
Proof. now destruct c. Qed.

Lemma main_loop_A_writes (total : nat) (productLinks : list Target) :
  forall i scrapedData failedLinks n,
    writes (events_of (main_loop_A array_length_of page total i productLinks
                         scrapedData failedLinks n)) = [].
Proof.
  induction productLinks as [| product rest IH]; intros i sd fl n; [reflexivity |].
  cbn [main_loop_A]; autorewrite with run.
  rewrite !writes_app, maybe_recycle_writes.
  rewrite (writes_of_neutral (events_of (scrapeProduct_A _ _ _ _)))
    by (unfold scrapeProduct_A; apply attempts_loop_neutral).
  destruct (value_of (scrapeProduct_A _ _ _ _)); [apply IH |].
  autorewrite with run; rewrite writes_app; apply IH.
Qed.

Lemma main_loop_D_writes (total : nat) (productLinks : list Target) :
  forall i scrapedData failedLinks n,
    writes (events_of (main_loop_D page total i productLinks scrapedData failedLinks n)) = [].
Proof.
  induction productLinks as [| product rest IH]; intros i sd fl n; [reflexivity |].
  cbn [main_loop_D]; autorewrite with run.
  rewrite !writes_app, maybe_recycle_writes.
  rewrite (writes_of_neutral (events_of (scrapeProduct_D _ _ _)))
    by (unfold scrapeProduct_D; apply attempts_loop_neutral).
  destruct (value_of (scrapeProduct_D _ _ _)); [apply IH |].
  autorewrite with run; rewrite writes_app; apply IH.
Qed.

Lemma main_loop_C_writes (date : string) (productLinks : list Target) :
  forall scrapedData failedLinks n,
    writes (events_of (main_loop_C array_length_of page append_error date productLinks
                         scrapedData failedLinks n)) = [].
Proof.
  induction productLinks as [| product rest IH]; intros sd fl n; [reflexivity |].
  cbn [main_loop_C]; autorewrite with run.
  rewrite !writes_app, scrapeProduct_C_writes.
  destruct (value_of (scrapeProduct_C _ _ _ _ _ _)) as [[d |] | message]; [apply IH | |];
    autorewrite with run; rewrite writes_app; apply IH.
Qed.

(** C7.  The files a run of variants A, C and D writes: always the
    succeeded records, under a name made from the date of the run, and
    after it the failed targets, under a second such name, exactly when
    [failedLinks] is not empty. *)
Theorem C7_artifacts_written (date : string) (productLinks : list Target) (n : nat) :
  let a := main_A array_length_of page date productLinks n in
  let c := main_C array_length_of page append_error date productLinks n in
  let d := main_D page date productLinks n in
  writes (events_of a)
  = (("results/products_" ++ date ++ ".json")%string, JScraped (fst (value_of a)))
    :: match snd (value_of a) with
       | [] => []
       | _ :: _ => [(("failed/failed_links_" ++ date ++ ".json")%string,
                     JUrls (snd (value_of a)))]
       end
  /\ writes (events_of c)
     = (("results/scrapedProducts_" ++ date ++ ".json")%string, JScrapedC (fst (value_of c)))
       :: match snd (value_of c) with
          | [] => []
          | _ :: _ => [(("failed/failedLinks_" ++ date ++ ".json")%string,
                        JFailedC (snd (value_of c)))]
          end
  /\ writes (events_of d)
     = (("results/products_" ++ date ++ ".json")%string, JScrapedD (fst (value_of d)))
       :: match snd (value_of d) with
          | [] => []
          | _ :: _ => [(("failed/failed_links_" ++ date ++ ".json")%string,
                        JUrls (snd (value_of d)))]
          end.
Proof.
  cbv zeta; rewrite main_A_value, main_C_value, main_D_value.
  unfold main_A, main_C, main_D; autorewrite with run.
  rewrite !writes_app, main_loop_A_writes, main_loop_C_writes, main_loop_D_writes.
  repeat split.
  - destruct (value_of (main_loop_A _ _ _ _ _ _ _ _)) as [sd [| u fl]]; reflexivity.
  - destruct (value_of (main_loop_C _ _ _ _ _ _ _ _)) as [sd [| u fl]]; reflexivity.
  - destruct (value_of (main_loop_D _ _ _ _ _ _ _)) as [sd [| u fl]]; reflexivity.
Qed.

End Output.

(** ** Soft diagnostics and identifiers *)

Lemma log_entry_includes_url (date url message : string) :
  JsString.includes url (log_entry date url message) = true.
Proof.
  unfold log_entry.
  apply includes_app_r, (includes_app_r url " - URL: ").
  apply includes_startsWith, startsWith_app.
Qed.

Section Diagnostics.

Variable array_length_of : string -> option nat.
Variable page : nat -> string -> Response.
Variable append_error : nat -> nat -> option string.

Lemma main_loop_C_step (date : string) (target : Target) (rest : list Target)
  (scrapedData : list ScrapedC) (failedLinks : list FailedC) (n : nat) :
  value_of (main_loop_C array_length_of page append_error date (target :: rest)
              scrapedData failedLinks n)
  = let r := scrapeProduct_C array_length_of page append_error date (product_link target) n in
    match value_of r with
    | Fulfilled (Some d) =>
        value_of (main_loop_C array_length_of page append_error date rest
                    (scrapedData ++ [{| url_C := product_link target; data_C := d |}])
                    failedLinks (clock_of r))
    | _ =>
        value_of (main_loop_C array_length_of page append_error date rest scrapedData
                    (failedLinks ++ [{| failed_url := product_link target; timestamp := date |}])
                    (clock_of r))
    end.
Proof.
  cbv zeta; cbn [main_loop_C]; autorewrite with run.
  change (clock_of (emit (Console (ScrapingUrl (product_link target))) n)) with n.
  destruct (value_of (scrapeProduct_C array_length_of page append_error date
                        (product_link target) n)) as [[d |] | message];
    now autorewrite with run.
Qed.


(** C10.  Variant D, a target that is scraped with success and whose URL
    does not contain [/products/]: the split has no second segment, the
    identifier is [undefined], and the loop pushes the record, with that
    identifier, on [scrapedData]; [failedLinks] gets nothing for it. *)
Theorem C10_missing_marker_gives_undefined_id (total i : nat) (target : Target)
  (n : nat) (d : ProductDataD) :
  JsString.includes "/products/" (product_link target) = false ->
  value_of (scrapeProduct_D page (product_link target) n) = Some d ->
  let url := product_link target in
  let entry := {| url_D := url; id := None; data_D := d |} in
  JsString.split "/products/" url = [url]
  /\ id_of_url url = None
  /\ forall rest scrapedData failedLinks,
       value_of (main_loop_D page total i (target :: rest) scrapedData failedLinks n)
       = value_of (main_loop_D page total (i + 1) rest (scrapedData ++ [entry]) failedLinks
                     (clock_of (scrapeProduct_D page url n)))
       /\ In entry (fst (value_of (main_loop_D page total i (target :: rest)
                                    scrapedData failedLinks n))).
Proof.
  intros Hmarker Hdata; cbv zeta.
  assert (Hsplit : JsString.split "/products/" (product_link target) = [product_link target])
    by (unfold JsString.split; now rewrite split_without_separator).
  assert (Hid : id_of_url (product_link target) = None)
    by (unfold id_of_url; now rewrite Hsplit).
  do 2 (split; [assumption |]).
  intros rest sd fl.
  assert (Hstep : value_of (main_loop_D page total i (target :: rest) sd fl n)
                  = value_of (main_loop_D page total (i + 1) rest
                                (sd ++ [{| url_D := product_link target; id := None;
                                           data_D := d |}]) fl
                                (clock_of (scrapeProduct_D page (product_link target) n)))).
  { cbn [main_loop_D]; autorewrite with run.
    cbn [clock_of value_of emit delay fst snd]; now rewrite Hdata, Hid. }
  split; [exact Hstep |].
  rewrite Hstep.
  destruct (main_loop_D_shuffle page total rest (i + 1)
              (sd ++ [{| url_D := product_link target; id := None; data_D := d |}]) fl
              (clock_of (scrapeProduct_D page (product_link target) n)))
    as (sd' & fl' & Hv & _).
  rewrite Hv; cbn [fst]; rewrite <- app_assoc; apply in_or_app; right; now left.
Qed.

End Diagnostics.

(** ** Images *)

Lemma fold_addValidImageUrl (l : list string) :
  forall acc,
    fold_left addValidImageUrl l acc
    = fold_left set_add (map normalised (filter accepted l)) acc.
Proof.
  induction l as [| x l IH]; intros acc; [reflexivity |].
  cbn [fold_left filter]; rewrite IH.
  unfold addValidImageUrl; fold (accepted x); destruct (accepted x); reflexivity.
Qed.

Lemma filter_filter_absent (acc : list string) (x : string) (l : list string) :
  Realms.mem x acc = true ->
  filter (fun y => negb (Realms.mem y acc)) (filter (fun y => negb (String.eqb y x)) l)
  = filter (fun y => negb (Realms.mem y acc)) l.
Proof.
  intros Hx; induction l as [| y l IH]; [reflexivity |].
  cbn [filter]; destruct (String.eqb_spec y x) as [-> | Hne]; cbn [negb filter].
  - now rewrite Hx, IH.
  - now rewrite IH.
Qed.

Lemma mem_app (y : string) (acc l : list string) :
  Realms.mem y (acc ++ l) = Realms.mem y acc || Realms.mem y l.
Proof. unfold Realms.mem; apply existsb_app. Qed.

Lemma filter_absent_snoc (acc : list string) (x : string) (l : list string) :
  filter (fun y => negb (Realms.mem y (acc ++ [x]))) l
  = filter (fun y => negb (Realms.mem y acc)) (filter (fun y => negb (String.eqb y x)) l).
Proof.
  induction l as [| y l IH]; [reflexivity |].
  cbn [filter]; rewrite mem_app; cbn [Realms.mem existsb].
  rewrite orb_false_r, negb_orb.
  destruct (String.eqb y x); cbn [negb filter].
  - now rewrite andb_false_r.
  - now rewrite andb_true_r, IH.
Qed.

Lemma fold_set_add (l : list string) :
  forall acc,
    fold_left set_add l acc
    = acc ++ filter (fun y => negb (Realms.mem y acc)) (first_seen l).
Proof.
  induction l as [| x l IH]; intros acc; cbn [fold_left first_seen filter].
  - now rewrite app_nil_r.
  - unfold set_add at 2; destruct (Realms.mem x acc) eqn:Hx; cbn [negb]; rewrite IH.
    + now rewrite filter_filter_absent.
    + now rewrite <- app_assoc, filter_absent_snoc.
Qed.

Lemma fold_set_add_nil (l : list string) : fold_left set_add l [] = first_seen l.
Proof.
  rewrite fold_set_add; cbn [app].
  rewrite (filter_ext _ (fun _ => true)) by reflexivity.
  induction (first_seen l) as [| y t IH]; [reflexivity |].
  cbn [filter]; now rewrite IH.
Qed.

Lemma first_seen_In (l : list string) (y : string) : In y (first_seen l) -> In y l.
Proof.
  revert y; induction l as [| x l IH]; intros y; [easy |].
  cbn [first_seen]; intros [-> | Hy]; [now left |].
  apply filter_In in Hy as [Hy _]; right; now apply IH.
Qed.

Lemma first_seen_NoDup (l : list string) : NoDup (first_seen l).
Proof.
  induction l as [| x l IH]; cbn [first_seen]; constructor.
  - intros [_ Hx]%filter_In; now rewrite String.eqb_refl in Hx.
  - now apply NoDup_filter.
Qed.

Lemma imageUrls_C_first_seen (doc : Document) :
  imageUrls_C doc = first_seen (map normalised (candidates_C doc)).
Proof.
  unfold imageUrls_C, candidates_C.
  rewrite !fold_addValidImageUrl.
  destruct (filter accepted (slideshow_original_src doc)) as [| x primary].
  - cbn [map app fold_left].
    rewrite <- fold_left_app, <- map_app; apply fold_set_add_nil.
  - rewrite (fold_set_add_nil (map normalised (x :: primary))).
    cbn [map first_seen app].
    change (normalised x :: filter ?f (first_seen (map normalised primary)))
      with (first_seen (map normalised (x :: primary))).
    rewrite <- (fold_set_add_nil (map normalised (x :: primary))), <- fold_left_app, <- map_app.
    apply fold_set_add_nil.
Qed.

Lemma normalised_no_placeholder (imgSrc : string) :
  accepted imgSrc = true -> JsString.includes "{width}" (normalised imgSrc) = false.
Proof.
  unfold accepted, normalised; intros [_ Hp]%andb_prop.
  apply negb_true_iff in Hp.
  destruct (JsString.includes "{width}" (JsString.before_first "?" _)) eqn:E; [| reflexivity].
  apply includes_before_first in E.
  destruct (JsString.startsWith "http" imgSrc); [congruence |].
  cbn in E; congruence.
Qed.

Lemma strip_query_normalised (imgSrc : string) :
  strip_query (normalised imgSrc) = normalised imgSrc.
Proof. apply before_first_idempotent. Qed.

Lemma imageUrls_C_entries (doc : Document) (u : string) :
  In u (imageUrls_C doc) ->
  exists imgSrc, accepted imgSrc = true /\ u = normalised imgSrc.
Proof.
  rewrite imageUrls_C_first_seen; intros H%first_seen_In.
  apply in_map_iff in H as (imgSrc & <- & Hin).
  exists imgSrc; split; [| reflexivity].
  unfold candidates_C in Hin.
  repeat (apply in_app_or in Hin as [Hin | Hin]);
    try (apply filter_In in Hin; tauto).
  destruct (filter accepted (slideshow_original_src doc)); [| easy].
  apply filter_In in Hin; tauto.
Qed.

Lemma imageUrls_C_clean (doc : Document) : clean_images (imageUrls_C doc).
Proof.
  split.
  - rewrite (map_ext_in strip_query (fun u => u)), map_id.
    + rewrite imageUrls_C_first_seen; apply first_seen_NoDup.
    + intros u (imgSrc & _ & ->)%imageUrls_C_entries; apply strip_query_normalised.
  - apply Forall_forall; intros u (imgSrc & Hacc & ->)%imageUrls_C_entries.
    now apply normalised_no_placeholder.
Qed.

(** ** What the table walk leaves alone *)

Lemma forEach_preserves {S X : Type} (P : S -> Prop) (step : S -> X -> Completion S)
  (l : list X) :
  (forall s x, In x l -> P s -> P (state_of (step s x))) ->
  forall s, P s -> P (state_of (forEach step s l)).
Proof.
  induction l as [| x l IH]; intros Hstep s Hs; [exact Hs |].
  cbn [forEach].
  pose proof (Hstep s x (or_introl eq_refl) Hs) as Hx.
  destruct (step s x) as [s' | s']; cbn [state_of] in Hx |- *; [| exact Hx].
  apply IH; [| exact Hx].
  intros s0 x0 Hin; apply Hstep; now right.
Qed.

Lemma inherited_not_array (r : Realm) (name : string) : Realms.inherited r name <> RArray.
Proof.
  unfold Realms.inherited.
  destruct (String.eqb name "__proto__"); [discriminate |].
  destruct (JsValue.get_own _ _); [discriminate |].
  destruct (String.eqb name "constructor"); [discriminate |].
  destruct (Realms.mem _ _); discriminate.
Qed.

Lemma get_data_array (h : Heap) (name : string) : get_data h name = RArray -> name = "images".
Proof.
  unfold get_data.
  repeat match goal with
         | |- context [String.eqb name ?s] => destruct (String.eqb_spec name s); try discriminate
         end; try easy.
  intros H; now apply inherited_not_array in H.
Qed.

Section Frame.

Variable array_length_of : string -> option nat.

Lemma put_member_images (h : Heap) (target : Ref) (key value : string) :
  target <> RArray ->
  images (data (state_of (put_member array_length_of h target key value))) = images (data h).
Proof.
  destruct target as [| s | | k | | b]; intros Hne; try reflexivity; try easy.
  cbn [put_member]; unfold with_realm; now destruct (Realms.function_put _ _ _ _).
Qed.

Lemma process_row_images (sectionName : string) (h : Heap) (r : Row) :
  sectionName <> "images" ->
  images (data (state_of (process_row array_length_of sectionName h r))) = images (data h).
Proof.
  intros Hne; unfold process_row.
  destruct (cells r) as [| c0 [| c1 [| c2 l]]]; try reflexivity.
  destruct (_ && _); [| reflexivity].
  apply put_member_images; intros H; now apply get_data_array in H.
Qed.

Lemma process_table_images (h : Heap) (rows : Table) :
  sectionName_of rows <> "images" ->
  images (data (state_of (process_table array_length_of h rows))) = images (data h).
Proof.
  intros Hne; unfold process_table.
  apply (forEach_preserves (fun s => images (data s) = images (data h))); [| reflexivity].
  intros s x _ Hs; now rewrite process_row_images.
Qed.

Lemma serialise_from_dense (r : Realm) (l : list string) :
  forall i, serialise_from r i (map Some l) = map Some l.
Proof. induction l as [| x l IH]; intros i; cbn; [reflexivity | now rewrite IH]. Qed.

Lemma evaluate_callback_images (collect : Document -> JsArray) (doc : Document)
  (l : list string) :
  collect doc = map Some l ->
  (forall rows, In rows (tables doc) -> sectionName_of rows <> "images") ->
  images (evaluate_callback array_length_of collect doc) = collect doc.
Proof.
  intros Hdense Hne; unfold evaluate_callback, serialise.
  match goal with
  | |- context [state_of ?c] =>
      assert (H : images (data (state_of c)) = collect doc)
  end.
  { apply (forEach_preserves (fun s => images (data s) = collect doc)); [| reflexivity].
    intros s rows Hin Hs; rewrite process_table_images; auto. }
  cbn [images set_images]; rewrite H, Hdense; apply serialise_from_dense.
Qed.

Lemma elements_map_Some (l : list string) : elements (map Some l) = l.
Proof.
  unfold elements; induction l as [| x l IH]; [reflexivity |].
  cbn [map flat_map app]; now rewrite IH.
Qed.

Lemma extract_D_images (doc : Document) :
  images_D (extract_D doc) = push_images (slideshow_original_src doc).
Proof.
  unfold extract_D; destruct (tempData_D doc) as [h | h]; [| reflexivity].
  now destruct (createTableHTML _ _).
Qed.

(** C4, as the code has it.  The image step of variant C yields the
    accepted attribute values, normalised, in first-seen order: no two
    entries are equal, with or without their query strings, and none holds
    [{width}]; this sequence is the [images] of the record of every page
    none of whose tables is headed [images].  The image step of variants A,
    B and D pushes [https:] and the value for every non-empty
    [data-original-src] of the slideshow and filters nothing. *)
Theorem C4_images_of_variant_C (doc : Document) :
  imageUrls_C doc = first_seen (map normalised (candidates_C doc))
  /\ NoDup (imageUrls_C doc)
  /\ clean_images (imageUrls_C doc)
  /\ ((forall rows, In rows (tables doc) -> sectionName_of rows <> "images") ->
      elements (images (extract_C array_length_of doc)) = imageUrls_C doc
      /\ images (extract_A array_length_of doc) = images_A doc)
  /\ images_A doc
     = map (fun imgSrc => Some ("https:" ++ imgSrc)%string)
         (filter JsString.truthy (slideshow_original_src doc))
  /\ images_D (extract_D doc)
     = map (fun imgSrc => ("https:" ++ imgSrc)%string)
         (filter JsString.truthy (slideshow_original_src doc)).
Proof.
  repeat split.
  - apply imageUrls_C_first_seen.
  - rewrite imageUrls_C_first_seen; apply first_seen_NoDup.
  - apply imageUrls_C_clean.
  - apply imageUrls_C_clean.
  - unfold extract_C.
    rewrite (evaluate_callback_images images_C doc (imageUrls_C doc)) by easy.
    apply elements_map_Some.
  - unfold extract_A.
    now apply (evaluate_callback_images images_A doc
                 (push_images (slideshow_original_src doc))).
  - unfold images_A, push_images; now rewrite map_map.
  - apply extract_D_images.
Qed.

End Frame.

(** ** Sections *)

Section Sections.

Variable array_length_of : string -> option nat.

(** A table whose section name finds nothing on [data] changes nothing. *)
Lemma process_table_without_target (h : Heap) (rows : Table) :
  Realms.truthy (get_data h (sectionName_of rows)) = false ->
  process_table array_length_of h rows = Normal h.
Proof.
  intros Hnone; unfold process_table.
  induction (tl rows) as [| r l IH]; [reflexivity |].
  cbn [forEach]; unfold process_row at 1.
  destruct (cells r) as [| c0 [| c1 [| c2 l']]]; try exact IH.
  rewrite Hnone, andb_false_r; exact IH.
Qed.

(** The same in variant D, where the table callback returns at once. *)
Lemma process_table_D_without_target (h : TempHeap) (rows : Table) :
  Realms.truthy (get_temp h (sectionName_D rows)) = false ->
  process_table_D h rows = Normal h.
Proof. intros Hnone; unfold process_table_D; now rewrite Hnone, orb_true_r. Qed.

(** C5, at the inputs where the code departs from it.  The heading
    [Images] resolves to none of the three section names, yet
    [data['images']] is the image array: in variants A, B and C the row
    [("0", "junk")] of such a table becomes the first image of the record.
    In variant D the heading [__proto__] resolves to no section either,
    and its row [("Category", "junk")] ends up in
    [product_category_string]. *)
Theorem C5_unresolved_heading_reaches_record :
  resolve_heading "images" = "images"
  /\ sectionName_of images_table = "images"
  /\ images_A (page_with [] [images_table]) = []
  /\ images (extract_A array_length_of (page_with [] [images_table])) = [Some "junk"]
  /\ images (extract_C array_length_of (page_with [] [images_table])) = [Some "junk"]
  /\ sectionName_D proto_table = "__proto__"
  /\ product_category_string (extract_D (page_with [] [])) = EmptyString
  /\ product_category_string (extract_D (page_with [] [proto_table])) = "junk".
Proof. repeat split. Qed.

(** C6, as the code has it.  A page with the one table headed
    [OEM Part Number Cross References] and the row [(k, v)]: in variants
    A, B and C [oem_reference] is the object with the one property whose
    key is [k] trimmed, lower-cased, spaces turned to underscores, and
    whose value is [v] trimmed, so [{"abc-100": "XYZ-9"}] for
    [("ABC-100", "XYZ-9")].  Variant D only trims the key: it collects
    [{"ABC-100": "XYZ-9"}] and emits the section as an HTML table. *)
Theorem C6_oem_scenario (t s : option string) (srcs gallery lazy : list string)
  (k v : string) :
  let doc k v := {| title := t; sku := s; slideshow_original_src := srcs;
                    gallery_src := gallery; lazy_data_src := lazy;
                    tables := [oem_table k v] |} in
  let key := JsString.spaces_to_underscores (JsString.toLowerCase (JsString.trim k)) in
  oem_reference (extract_A array_length_of (doc k v))
  = JsValue.object_put [] key (JsString.trim v)
  /\ oem_reference (extract_C array_length_of (doc k v))
     = JsValue.object_put [] key (JsString.trim v)
  /\ oem_reference (extract_A array_length_of (doc "ABC-100" "XYZ-9")) = [("abc-100", "XYZ-9")]
  /\ oem_reference (extract_C array_length_of (doc "ABC-100" "XYZ-9")) = [("abc-100", "XYZ-9")]
  /\ temp_oem_reference (state_of (tempData_D (doc "ABC-100" "XYZ-9"))) = [("ABC-100", "XYZ-9")]
  /\ oem_reference_D (extract_D (doc "ABC-100" "XYZ-9"))
     = ("<table border=" ++ String double_quote "1" ++ String double_quote ">"
        ++ "<tr><td>ABC-100</td><td>XYZ-9</td></tr></table>")%string.
Proof. cbv zeta; repeat split. Qed.

End Sections.

(** * Runs on sample pages *)

Lemma C2_bounded_retries_witness :
  scrapeProduct_A decimal_length always_timeout product_url 0
  = (None, 3, failed_attempts always_timeout product_url 0 3)
  /\ scrapeProduct_A decimal_length (renders_at 1 oem_page) product_url 0
     = (Some (extract_A decimal_length oem_page), 2,
        failed_attempts (renders_at 1 oem_page) product_url 0 1
        ++ [Goto product_url; WaitForSelector; Evaluate]).
Proof.
  split.
  - apply (proj1 (C2_bounded_retries decimal_length always_timeout product_url 0)).
    intros j _; reflexivity.
  - apply (proj2 (C2_bounded_retries decimal_length (renders_at 1 oem_page) product_url 0)
             1 oem_page).
    + unfold RETRY_LIMIT; lia.
    + intros j Hj; destruct j; [reflexivity | lia].
    + reflexivity.
Defined.

Lemma C3_recycles_witness :
  List.length many_targets = 120
  /\ recycled_at Live (events_of (main_A decimal_length always_timeout run_date many_targets 0))
     = [50; 100].
Proof.
  split; [reflexivity |].
  apply (C3_recycles_at_batch_boundaries decimal_length always_timeout run_date many_targets 0).
  reflexivity.
Defined.

Lemma C4_images_witness :
  elements (images (extract_C decimal_length oem_page)) = imageUrls_C oem_page.
Proof.
  apply (C4_images_of_variant_C decimal_length oem_page).
  intros rows [<- | []]; vm_compute; discriminate.
Defined.


Lemma C10_undefined_id_witness : id_of_url collection_url = None.
Proof.
  apply (C10_missing_marker_gives_undefined_id (always_renders oem_page) 1 0
           {| product_link := collection_url |} 0 (extract_D oem_page)); reflexivity.
Defined.

(** Variant A keeps both sizes of the picture, placeholder included. *)
Lemma C4_variant_A_keeps_duplicates :
  ~ clean_images (elements (images (extract_A decimal_length (page_with templated_sources [])))).
Proof.
  intros [Hdup _]; vm_compute in Hdup.
  inversion Hdup as [| x l Hin _]; apply Hin; now left.
Qed.


(** Variant D does not collect the lower-cased key. *)
Lemma C6_variant_D_keeps_case :
  temp_oem_reference (state_of (tempData_D (page_with [] [oem_table "ABC-100" "XYZ-9"])))
  <> [("abc-100", "XYZ-9")].
Proof. vm_compute; discriminate. Qed.

(** The copy [page.evaluate] makes reads a hole of the image array through
    the prototype chain: with [0] put on [Object.prototype] by one table
    and index [1] assigned by another, the record holds the inherited
    string at index [0]; without the first table the element stays empty. *)
Lemma serialised_hole_reads_the_prototype :
  images (extract_A decimal_length
            (page_with [] [[heading_row "__proto__"; pair_row "0" "ghost"];
                           [heading_row "Images"; pair_row "1" "junk"]]))
  = [Some "ghost"; Some "junk"]
  /\ images (extract_A decimal_length
               (page_with [] [[heading_row "Images"; pair_row "1" "junk"]]))
     = [None; Some "junk"].
Proof. split; vm_compute; reflexivity. Qed.

(** * Further properties *)

(** ** Counting events *)

Lemma count_app (p : Event -> bool) (l t : list Event) :
  count p (l ++ t) = count p l + count p t.
Proof. unfold count; now rewrite filter_app, length_app. Qed.

Lemma count_neutral (l : list Event) :
  forallb neutral l = true -> count is_launch l = 0 /\ count is_close l = 0.
Proof.
  unfold count; induction l as [| e l IH]; [now split |].
  cbn [forallb]; intros [He Hl]%andb_prop; destruct (IH Hl) as [IH1 IH2].
  destruct e; try discriminate He; cbn; now split.
Qed.

Lemma count_attempt_events (url : string) (r : Response) :
  count is_goto (attempt_events url r) = 1 /\ count is_delay (attempt_events url r) = 0.
Proof. destruct r; now split. Qed.

(** ** The retry loop, whatever the browser answers *)

Lemma navigate_value (page : nat -> string -> Response) (url : string) (n : nat) :
  value_of (navigate page url n) = page n url.
Proof. reflexivity. Qed.

Lemma navigate_clock (page : nat -> string -> Response) (url : string) (n : nat) :
  clock_of (navigate page url n) = S n.
Proof. reflexivity. Qed.

Lemma navigate_events (page : nat -> string -> Response) (url : string) (n : nat) :
  events_of (navigate page url n) = attempt_events url (page n url).
Proof. reflexivity. Qed.

Lemma emit_clock (e : Event) (n : nat) : clock_of (emit e n) = n.
Proof. reflexivity. Qed.

Lemma emit_events (e : Event) (n : nat) : events_of (emit e n) = [e].
Proof. reflexivity. Qed.

Lemma emits_clock (l : list Event) (n : nat) : clock_of (emits l n) = n.
Proof. reflexivity. Qed.

Lemma emits_events (l : list Event) (n : nat) : events_of (emits l n) = l.
Proof. reflexivity. Qed.

Lemma delay_clock (ms n : nat) : clock_of (delay ms n) = n.
Proof. reflexivity. Qed.

Lemma delay_events (ms n : nat) : events_of (delay ms n) = [Delay ms].
Proof. reflexivity. Qed.

Lemma ret_value {A : Type} (a : A) (n : nat) : value_of (ret a n) = a.
Proof. reflexivity. Qed.

Lemma ret_clock {A : Type} (a : A) (n : nat) : clock_of (ret a n) = n.
Proof. reflexivity. Qed.

Lemma ret_events {A : Type} (a : A) (n : nat) : events_of (ret a n) = [].
Proof. reflexivity. Qed.

Create Rewrite HintDb effects.
#[local] Hint Rewrite @bind_value @bind_clock @bind_events maybe_recycle_clock
  maybe_recycle_events navigate_value navigate_clock navigate_events
  emit_clock emit_events emits_clock emits_events delay_clock delay_events
  @ret_value @ret_clock @ret_events count_app : effects.

Lemma count_cons (p : Event -> bool) (e : Event) (l : list Event) :
  count p (e :: l) = (if p e then 1 else 0) + count p l.
Proof. unfold count; cbn [filter]; now destruct (p e). Qed.

Lemma count_nil (p : Event -> bool) : count p [] = 0.
Proof. reflexivity. Qed.

Section RetryBounds.

Variable page : nat -> string -> Response.
Context {R : Type} (callback : Document -> R).

Lemma attempts_loop_none_iff (url : string) (remaining : nat) :
  forall attempts n,
    value_of (attempts_loop page callback url remaining attempts n) = None
    <-> (forall j, j < remaining -> is_rendered (page (n + j) url) = false).
Proof.
  induction remaining as [| remaining IH]; intros attempts n.
  - split; [intros _ j Hj; lia | reflexivity].
  - split.
    + intros Hnone j Hj.
      cbn [attempts_loop] in Hnone.
      rewrite bind_value, navigate_value, navigate_clock in Hnone.
      destruct j as [| j].
      * rewrite Nat.add_0_r; destruct (page n url); try reflexivity; discriminate Hnone.
      * replace (n + S j) with (S n + j) by lia.
        apply (IH (attempts + 1) (S n)); [| lia].
        destruct (page n url); try discriminate Hnone;
          now rewrite !bind_value in Hnone.
    + intros Hfail.
      now rewrite (attempts_loop_exhausted page callback url (S remaining) attempts n Hfail).
Qed.

Lemma attempts_loop_navigations (url : string) (remaining : nat) :
  forall attempts n,
    let r := attempts_loop page callback url remaining attempts n in
    n + Nat.min 1 remaining <= clock_of r <= n + remaining
    /\ n + count is_goto (events_of r) = clock_of r
    /\ n + count is_delay (events_of r)
         + match value_of r with Some _ => 1 | None => 0 end = clock_of r.
Proof.
  induction remaining as [| remaining IH]; intros attempts n; cbv zeta.
  - cbn; repeat split; lia.
  - cbn [attempts_loop]; autorewrite with effects.
    destruct (count_attempt_events url (page n url)) as [-> ->].
    specialize (IH (attempts + 1) (S n)); cbv zeta in IH.
    destruct IH as ([IH1 IH2] & IH3 & IH4).
    destruct (page n url); autorewrite with effects;
      rewrite ?count_cons, ?count_nil; cbn [is_goto is_delay];
      repeat split; lia.
Qed.

End RetryBounds.

Lemma attempts_loop_clock_callback (page : nat -> string -> Response) {R1 R2 : Type}
  (callback1 : Document -> R1) (callback2 : Document -> R2) (url : string)
  (remaining : nat) :
  forall attempts n,
    clock_of (attempts_loop page callback1 url remaining attempts n)
    = clock_of (attempts_loop page callback2 url remaining attempts n).
Proof.
  induction remaining as [| remaining IH]; intros attempts n; [reflexivity |].
  cbn [attempts_loop]; autorewrite with effects.
  destruct (page n url); autorewrite with effects; auto.
Qed.


(** ** Navigations and sessions of a run *)

Lemma maybe_recycle_counts (c : bool) :
  let l := if c then [Console Restarting; BrowserClose; BrowserLaunch true; NewPage;
                      SetUserAgent; SetExtraHTTPHeaders; EvaluateOnNewDocument]
           else [] in
  count is_goto l = 0
  /\ count is_launch l = (if c then 1 else 0)
  /\ count is_close l = (if c then 1 else 0).
Proof. destruct c; now repeat split. Qed.

Section RunCounts.

Variable array_length_of : string -> option nat.
Variable page : nat -> string -> Response.

(** The step of the induction for the loops of variants A and D. *)
Ltac loop_counts IH callback :=
  match goal with
  | |- context [attempts_loop page callback ?url RETRY_LIMIT 0 ?n] =>
      let Hb := fresh "Hb" in
      let Hg := fresh "Hg" in
      let Hl := fresh "Hl" in
      let Hc := fresh "Hc" in
      destruct (attempts_loop_navigations page callback url RETRY_LIMIT 0 n) as (Hb & Hg & _);
      destruct (count_neutral _ (attempts_loop_neutral page callback url RETRY_LIMIT 0 n))
        as [Hl Hc];
      change RETRY_LIMIT with 3 in *; cbn [Nat.min] in Hb;
      rewrite Hl, Hc;
      destruct (value_of (attempts_loop page callback url 3 0 n));
      autorewrite with effects; rewrite ?count_cons, ?count_nil;
      cbn [is_goto is_launch is_close];
      match goal with
      | |- context [clock_of (?loop page ?total ?j ?rest ?sd ?fl ?m)] =>
          destruct (IH j sd fl m) as (? & ? & ? & ?)
      | |- context [clock_of (?loop array_length_of page ?total ?j ?rest ?sd ?fl ?m)] =>
          destruct (IH j sd fl m) as (? & ? & ? & ?)
      end;
      rewrite ?Nat.add_1_r in *;
      repeat split; lia
  end.

Lemma main_loop_A_counts (total : nat) (productLinks : list Target) :
  forall i scrapedData failedLinks n,
    let r := main_loop_A array_length_of page total i productLinks scrapedData failedLinks n in
    let recycles := List.length (filter nonzero_multiple (seq i (List.length productLinks))) in
    n + List.length productLinks <= clock_of r <= n + 3 * List.length productLinks
    /\ n + count is_goto (events_of r) = clock_of r
    /\ count is_launch (events_of r) = recycles
    /\ count is_close (events_of r) = recycles.
Proof.
  induction productLinks as [| product rest IH]; intros i sd fl n; cbv zeta.
  - cbn; repeat split; lia.
  - cbn [main_loop_A List.length]; rewrite seq_filter_S, length_app.
    autorewrite with effects; fold (nonzero_multiple i).
    destruct (maybe_recycle_counts (nonzero_multiple i)) as (-> & -> & ->).
    rewrite ?count_cons, ?count_nil; cbn [is_goto is_launch is_close].
    replace (List.length (if nonzero_multiple i then [i] else []))
      with (if nonzero_multiple i then 1 else 0) by (now destruct (nonzero_multiple i)).
    unfold scrapeProduct_A.
    loop_counts IH (extract_A array_length_of).
Qed.

Lemma main_loop_D_counts (total : nat) (productLinks : list Target) :
  forall i scrapedData failedLinks n,
    let r := main_loop_D page total i productLinks scrapedData failedLinks n in
    let recycles := List.length (filter nonzero_multiple (seq i (List.length productLinks))) in
    n + List.length productLinks <= clock_of r <= n + 3 * List.length productLinks
    /\ n + count is_goto (events_of r) = clock_of r
    /\ count is_launch (events_of r) = recycles
    /\ count is_close (events_of r) = recycles.
Proof.
  induction productLinks as [| product rest IH]; intros i sd fl n; cbv zeta.
  - cbn; repeat split; lia.
  - cbn [main_loop_D List.length]; rewrite seq_filter_S, length_app.
    autorewrite with effects; fold (nonzero_multiple i).
    destruct (maybe_recycle_counts (nonzero_multiple i)) as (-> & -> & ->).
    rewrite ?count_cons, ?count_nil; cbn [is_goto is_launch is_close].
    replace (List.length (if nonzero_multiple i then [i] else []))
      with (if nonzero_multiple i then 1 else 0) by (now destruct (nonzero_multiple i)).
    unfold scrapeProduct_D.
    loop_counts IH extract_D.
Qed.

End RunCounts.

Section RunBounds.

Variable array_length_of : string -> option nat.
Variable page : nat -> string -> Response.

Lemma save_A_counts (date : string) (sd : list Scraped) (fl : list string) (n : nat) :
  clock_of (save_A date sd fl n) = n
  /\ count is_goto (events_of (save_A date sd fl n)) = 0
  /\ count is_launch (events_of (save_A date sd fl n)) = 0
  /\ count is_close (events_of (save_A date sd fl n)) = 0.
Proof. destruct fl; now repeat split. Qed.

Lemma save_D_counts (date : string) (sd : list ScrapedD) (fl : list string) (n : nat) :
  clock_of (save_D date sd fl n) = n
  /\ count is_goto (events_of (save_D date sd fl n)) = 0
  /\ count is_launch (events_of (save_D date sd fl n)) = 0
  /\ count is_close (events_of (save_D date sd fl n)) = 0.
Proof. destruct fl; now repeat split. Qed.

(** A run of variants A and D over [len] targets makes at least [len] and
    at most [3 * len] navigations, and issues one [goto] per navigation. *)
Theorem run_navigations_bounded (date : string) (productLinks : list Target) (n : nat) :
  let a := main_A array_length_of page date productLinks n in
  let d := main_D page date productLinks n in
  let len := List.length productLinks in
  n + len <= clock_of a <= n + RETRY_LIMIT * len
  /\ count is_goto (events_of a) = clock_of a - n
  /\ n + len <= clock_of d <= n + RETRY_LIMIT * len
  /\ count is_goto (events_of d) = clock_of d - n.
Proof.
  cbv zeta; unfold main_A, main_D; autorewrite with effects.
  unfold open_session; autorewrite with effects.
  rewrite ?count_cons, ?count_nil; cbn [is_goto].
  destruct (main_loop_A_counts array_length_of page (List.length productLinks) productLinks
              0 [] [] n) as (Ha & Hga & _).
  destruct (main_loop_D_counts page (List.length productLinks) productLinks 0 [] [] n)
    as (Hd & Hgd & _).
  cbv zeta in Ha, Hga, Hd, Hgd.
  repeat match goal with
         | |- context [save_A ?dt ?sd ?fl ?m] =>
             destruct (save_A_counts dt sd fl m) as (-> & -> & _)
         | |- context [save_D ?dt ?sd ?fl ?m] =>
             destruct (save_D_counts dt sd fl m) as (-> & -> & _)
         end.
  change RETRY_LIMIT with 3; repeat split; lia.
Qed.

(** Every browser a run of variants A and D launches is closed: the run
    launches one browser at the start and one per nonzero multiple of
    [BATCH_SIZE] below the number of targets, and closes as many. *)
Theorem every_browser_is_closed (date : string) (productLinks : list Target) (n : nat) :
  let a := events_of (main_A array_length_of page date productLinks n) in
  let d := events_of (main_D page date productLinks n) in
  let recycles :=
    List.length (filter nonzero_multiple (seq 0 (List.length productLinks))) in
  count is_launch a = 1 + recycles
  /\ count is_close a = 1 + recycles
  /\ count is_launch d = 1 + recycles
  /\ count is_close d = 1 + recycles.
Proof.
  cbv zeta; unfold main_A, main_D; autorewrite with effects.
  unfold open_session; autorewrite with effects.
  rewrite ?count_cons, ?count_nil; cbn [is_launch is_close].
  destruct (main_loop_A_counts array_length_of page (List.length productLinks) productLinks
              0 [] [] n) as (_ & _ & Hla & Hca).
  destruct (main_loop_D_counts page (List.length productLinks) productLinks 0 [] [] n)
    as (_ & _ & Hld & Hcd).
  cbv zeta in Hla, Hca, Hld, Hcd.
  repeat match goal with
         | |- context [save_A ?dt ?sd ?fl ?m] =>
             destruct (save_A_counts dt sd fl m) as (_ & _ & -> & ->)
         | |- context [save_D ?dt ?sd ?fl ?m] =>
             destruct (save_D_counts dt sd fl m) as (_ & _ & -> & ->)
         end.
  repeat split; lia.
Qed.

End RunBounds.

(** ** Variant B *)

Section VariantBProperties.

Variable array_length_of : string -> option nat.
Variable page : nat -> string -> Response.

Lemma scrapeProduct_B_run (url : string) (n : nat) :
  let r := scrapeProduct_B array_length_of page url n in
  clock_of r = S n
  /\ value_of r = match page n url with
                  | Rendered d => Some (extract_A array_length_of d)
                  | _ => None
                  end
  /\ count is_goto (events_of r) = 1
  /\ count is_delay (events_of r) = 0
  /\ forallb neutral (events_of r) = true.
Proof.
  cbv zeta; unfold scrapeProduct_B; autorewrite with effects.
  destruct (page n url); now repeat split.
Qed.

Lemma main_loop_B_run (productLinks : list Target) :
  forall scrapedData failedLinks n,
    let r := main_loop_B array_length_of page productLinks scrapedData failedLinks n in
    (exists sd fl,
        value_of r = (scrapedData ++ sd, failedLinks ++ fl)
        /\ Interleave (map url sd) fl (map product_link productLinks))
    /\ clock_of r = n + List.length productLinks
    /\ count is_goto (events_of r) = List.length productLinks
    /\ count is_delay (events_of r) = 0
    /\ forallb neutral (events_of r) = true.
Proof.
  induction productLinks as [| product rest IH]; intros sd0 fl0 n; cbv zeta.
  - cbn; repeat split; try lia.
    exists [], []; rewrite !app_nil_r; split; [reflexivity | constructor].
  - cbn [main_loop_B List.length]; autorewrite with effects.
    rewrite ?count_cons, ?count_nil, !forallb_app; cbn [is_goto is_delay forallb neutral].
    destruct (scrapeProduct_B_run (product_link product) n) as (-> & Hv & -> & -> & ->).
    destruct (value_of (scrapeProduct_B _ _ _ _)) as [d |]; autorewrite with effects;
      rewrite ?count_cons, ?count_nil, ?forallb_app; cbn [is_goto is_delay forallb neutral].
    + destruct (IH (sd0 ++ [{| url := product_link product; scraped_data := d |}]) fl0 (S n))
        as ((sd & fl & -> & Hi) & -> & -> & -> & ->).
      repeat split; try lia.
      exists ({| url := product_link product; scraped_data := d |} :: sd), fl.
      rewrite <- app_assoc; split; [reflexivity | now constructor].
    + destruct (IH sd0 (fl0 ++ [product_link product]) (S n))
        as ((sd & fl & -> & Hi) & -> & -> & -> & ->).
      repeat split; try lia.
      exists sd, (product_link product :: fl).
      rewrite <- app_assoc; split; [reflexivity | now constructor].
Qed.

(** Variant B tries every target once: [scrapeProduct] returns [null]
    exactly when the one attempt does not render, and a run over [len]
    targets makes [len] navigations, never waits, and uses one browser,
    launched at the start and closed at the end. *)
Theorem variant_B_tries_once (date : string) (productLinks : list Target)
  (url : string) (n : nat) :
  let s := scrapeProduct_B array_length_of page url n in
  let r := main_B array_length_of page date productLinks n in
  (value_of s = None <-> is_rendered (page n url) = false)
  /\ clock_of s = S n
  /\ clock_of r = n + List.length productLinks
  /\ count is_goto (events_of r) = List.length productLinks
  /\ count is_delay (events_of r) = 0
  /\ count is_launch (events_of r) = 1
  /\ count is_close (events_of r) = 1.
Proof.
  cbv zeta.
  destruct (scrapeProduct_B_run url n) as (Hc & Hv & _).
  split; [rewrite Hv; destruct (page n url); cbn; split; congruence |].
  split; [exact Hc |].
  unfold main_B; autorewrite with effects.
  destruct (main_loop_B_run productLinks [] [] n) as (_ & Hcl & Hg & Hd & Hn).
  cbv zeta in Hcl, Hg, Hd, Hn.
  destruct (count_neutral _ Hn) as [Hl Hcs].
  rewrite ?count_cons, ?count_nil, Hcl, Hg, Hd, Hl, Hcs; cbn [is_goto is_delay is_launch is_close].
  destruct (snd (value_of (main_loop_B _ _ _ _ _ _))); cbn; repeat split; lia.
Qed.

(** Variant B sorts every target into exactly one of its two outputs, in
    input order, and writes its artifacts like variant A: the records
    always, the failed URLs exactly when there are any. *)
Theorem variant_B_outputs (date : string) (productLinks : list Target) (n : nat) :
  let r := main_B array_length_of page date productLinks n in
  let out := value_of r in
  Interleave (map url (fst out)) (snd out) (map product_link productLinks)
  /\ Permutation (map url (fst out) ++ snd out) (map product_link productLinks)
  /\ writes (events_of r)
     = (("results/products_" ++ date ++ ".json")%string, JScraped (fst out))
       :: match snd out with
          | [] => []
          | _ :: _ => [(("failed/failed_links_" ++ date ++ ".json")%string, JUrls (snd out))]
          end.
Proof.
  cbv zeta.
  destruct (main_loop_B_run productLinks [] [] n) as ((sd & fl & Hv & Hi) & _ & _ & _ & Hn).
  cbv zeta in Hn; cbn [app] in Hv.
  assert (Hout : value_of (main_B array_length_of page date productLinks n) = (sd, fl))
    by (unfold main_B; autorewrite with effects; exact Hv).
  rewrite Hout; cbn [fst snd].
  split; [exact Hi |]. split; [now apply Interleave_Permutation |].
  unfold main_B; autorewrite with effects; rewrite Hv; cbn [fst snd].
  rewrite !writes_app, (writes_of_neutral _ Hn).
  destruct fl; reflexivity.
Qed.

End VariantBProperties.

(** ** Variant C *)

Lemma appended_app (l t : list Event) : appended (l ++ t) = appended l ++ appended t.
Proof.
  induction l as [| e l IH]; [reflexivity |].
  destruct e; cbn; now rewrite ?IH.
Qed.

Lemma appended_attempt_events (url : string) (r : Response) :
  appended (attempt_events url r) = [].
Proof. now destruct r. Qed.

Lemma log_entry_includes_message (date url prefix message : string) :
  JsString.includes message (log_entry date url (prefix ++ message)) = true.
Proof.
  unfold log_entry.
  apply includes_app_r, (includes_app_r message " - URL: "), includes_app_r,
    (includes_app_r message " - Error: ").
  rewrite append_assoc.
  apply includes_app_r, includes_startsWith, startsWith_app.
Qed.

Section VariantCProperties.

Variable array_length_of : string -> option nat.
Variable page : nat -> string -> Response.
Variable append_error : nat -> nat -> option string.

Lemma imageless_entry (u : string) (p : ProductData) (date : string) :
  imageless {| url_C := u; data_C := {| product := p; scrape_date := date |} |}
  = match images p with [] => true | _ => false end.
Proof. reflexivity. Qed.

Lemma imageless_record (u : string) (record : DatedProduct) :
  imageless {| url_C := u; data_C := record |}
  = match images (product record) with [] => true | _ => false end.
Proof. reflexivity. Qed.

Lemma scrapeProduct_C_run (date url : string) (n : nat) :
  let r := scrapeProduct_C array_length_of page append_error date url n in
  clock_of r = S n
  /\ count is_goto (events_of r) = 1
  /\ count is_delay (events_of r) = 0
  /\ forallb neutral (events_of r) = true
  /\ Forall (in_log date) (appended (events_of r))
  /\ ((forall m k, append_error m k <> None) -> appended (events_of r) = [])
  /\ match value_of r with
     | Fulfilled (Some record) =>
         scrape_date record = date
         /\ List.length (appended (events_of r))
            = match images (product record) with [] => 1 | _ => 0 end
     | _ =>
         List.length (appended (events_of r)) <= 1
         /\ ((forall m k, append_error m k = None) ->
             List.length (appended (events_of r)) = 1)
     end.
Proof.
  cbv zeta.
  unfold scrapeProduct_C, scrapeProduct_C_catch, logErrorToFile, bind, navigate, ret.
  destruct (page n url) as [m | m | m | d];
    try destruct (images (extract_C array_length_of d)) as [| img imgs] eqn:Eimg;
    destruct (append_error (S n) 0) as [e0 |] eqn:E0;
    try destruct (append_error (S n) 1) as [e1 |] eqn:E1;
    cbn -[extract_C log_entry log_path]; rewrite ?Eimg;
    repeat split; try lia;
    try (repeat constructor; reflexivity);
    try (intros H; solve [ now rewrite H in E0 | now rewrite H in E1
                         | now apply H in E0 | now apply H in E1 ]).
Qed.

Lemma main_loop_C_run (date : string) (productLinks : list Target) :
  forall scrapedData failedLinks n,
    let r := main_loop_C array_length_of page append_error date productLinks
               scrapedData failedLinks n in
    exists sd fl,
      value_of r = (scrapedData ++ sd, failedLinks ++ fl)
      /\ Forall (dated date) sd
      /\ Forall (stamped date) fl
      /\ Forall (in_log date) (appended (events_of r))
      /\ List.length (filter imageless sd) <= List.length (appended (events_of r))
          <= List.length fl + List.length (filter imageless sd)
      /\ ((forall m k, append_error m k = None) ->
          List.length (appended (events_of r))
          = List.length fl + List.length (filter imageless sd))
      /\ ((forall m k, append_error m k <> None) -> appended (events_of r) = [])
      /\ clock_of r = n + List.length productLinks
      /\ count is_goto (events_of r) = List.length productLinks
      /\ count is_delay (events_of r) = 0
      /\ forallb neutral (events_of r) = true.
Proof.
  induction productLinks as [| target rest IH]; intros sd0 fl0 n; cbv zeta.
  - exists [], []; cbn; rewrite !app_nil_r; repeat split; try constructor; lia.
  - cbn [main_loop_C List.length]; autorewrite with effects.
    destruct (scrapeProduct_C_run date (product_link target) n)
      as (Hc & Hg & Hd & Hn & Hlog & Hnone & Hval); cbv zeta in *.
    rewrite Hc, Hg, Hd, !forallb_app, Hn, !appended_app.
    rewrite ?count_cons, ?count_nil; cbn [is_goto is_delay forallb neutral appended app].
    destruct (value_of (scrapeProduct_C array_length_of page append_error date
                          (product_link target) n)) as [[record |] | message];
      autorewrite with effects; rewrite ?count_cons, ?count_nil, ?forallb_app, ?appended_app;
      cbn [is_goto is_delay forallb neutral appended app];
      match goal with
      | |- context [main_loop_C _ _ _ _ _ ?sd1 ?fl1 ?n1] =>
          destruct (IH sd1 fl1 n1)
            as (sd & fl & -> & Hds & Hss & Hlogs & Hbound & Hexact & Hempty
                & -> & -> & -> & ->)
      end;
      rewrite <- ?app_assoc; cbn [app].
    + destruct Hval as [Hdate Hlen].
      exists ({| url_C := product_link target; data_C := record |} :: sd), fl.
      cbn [filter]; rewrite !imageless_record, !length_app, Hlen.
      repeat split; try assumption; try (apply Forall_app; now split);
        try (constructor; assumption); try lia;
        try (destruct (images (product record)); cbn [List.length]; lia);
        intros H;
        first [ rewrite (Hexact H); destruct (images (product record)); cbn [List.length]; lia
              | now rewrite (Hnone H), (Hempty H) ].
    + destruct Hval as [Hle Hone].
      exists sd, ({| failed_url := product_link target; timestamp := date |} :: fl).
      rewrite !length_app; cbn [List.length].
      repeat split; try assumption; try (apply Forall_app; now split);
        try (constructor; [reflexivity | assumption]); try lia;
        intros H;
        first [ rewrite (Hexact H), (Hone H); lia | now rewrite (Hnone H), (Hempty H) ].
    + destruct Hval as [Hle Hone].
      exists sd, ({| failed_url := product_link target; timestamp := date |} :: fl).
      rewrite !length_app; cbn [List.length].
      repeat split; try assumption; try (apply Forall_app; now split);
        try (constructor; [reflexivity | assumption]); try lia;
        intros H;
        first [ rewrite (Hexact H), (Hone H); lia | now rewrite (Hnone H), (Hempty H) ].
Qed.

Lemma save_C_run (date : string) (sd : list ScrapedC) (fl : list FailedC) (n : nat) :
  let r := save_C date sd fl n in
  clock_of r = n /\ appended (events_of r) = []
  /\ count is_goto (events_of r) = 0 /\ count is_delay (events_of r) = 0
  /\ count is_launch (events_of r) = 0 /\ count is_close (events_of r) = 0.
Proof. destruct fl; now repeat split. Qed.

Lemma main_C_run (date : string) (productLinks : list Target) (n : nat) :
  let r := main_C array_length_of page append_error date productLinks n in
  let l := main_loop_C array_length_of page append_error date productLinks [] [] n in
  value_of r = value_of l
  /\ appended (events_of r) = appended (events_of l)
  /\ clock_of r = clock_of l
  /\ count is_goto (events_of r) = count is_goto (events_of l)
  /\ count is_delay (events_of r) = count is_delay (events_of l)
  /\ count is_launch (events_of r) = 1 + count is_launch (events_of l)
  /\ count is_close (events_of r) = count is_close (events_of l) + 1.
Proof.
  cbv zeta; unfold main_C; autorewrite with effects; rewrite !appended_app.
  destruct (save_C_run date
              (fst (value_of (main_loop_C array_length_of page append_error date
                                productLinks [] [] n)))
              (snd (value_of (main_loop_C array_length_of page append_error date
                                productLinks [] [] n)))
              (clock_of (main_loop_C array_length_of page append_error date
                           productLinks [] [] n)))
    as (-> & -> & -> & -> & -> & ->).
  rewrite ?count_cons, ?count_nil; cbn [is_goto is_delay is_launch is_close appended app].
  rewrite app_nil_r; repeat split; lia.
Qed.

(** One capture date per run of variant C: every record carries it as
    [scrape_date], every failed entry as [timestamp], and every log line
    goes to the log file named after it. *)
Theorem variant_C_one_date_per_run (date : string) (productLinks : list Target) (n : nat) :
  let r := main_C array_length_of page append_error date productLinks n in
  Forall (fun e => scrape_date (data_C e) = date) (fst (value_of r))
  /\ Forall (fun f => timestamp f = date) (snd (value_of r))
  /\ Forall (fun entry => fst entry = ("logs/image_scraping_errors_" ++ date ++ ".log")%string)
       (appended (events_of r)).
Proof.
  cbv zeta.
  destruct (main_C_run date productLinks n) as (-> & -> & _).
  destruct (main_loop_C_run date productLinks [] [] n)
    as (sd & fl & Hv & Hd & Hs & Hlog & _).
  cbv zeta in Hv, Hlog; rewrite Hv; cbn [fst snd app].
  repeat split; assumption.
Qed.


(** Variant C makes one navigation per target, never waits between
    targets, and uses one browser for the whole run. *)
Theorem variant_C_tries_once (date : string) (productLinks : list Target) (n : nat) :
  let r := main_C array_length_of page append_error date productLinks n in
  clock_of r = n + List.length productLinks
  /\ count is_goto (events_of r) = List.length productLinks
  /\ count is_delay (events_of r) = 0
  /\ count is_launch (events_of r) = 1
  /\ count is_close (events_of r) = 1.
Proof.
  cbv zeta.
  destruct (main_C_run date productLinks n) as (_ & _ & -> & -> & -> & -> & ->).
  destruct (main_loop_C_run date productLinks [] [] n)
    as (sd & fl & _ & _ & _ & _ & _ & _ & _ & Hc & Hg & Hd & Hn).
  destruct (count_neutral _ Hn) as [Hl Hcs].
  cbv zeta in Hc, Hg, Hd; rewrite Hc, Hg, Hd, Hl, Hcs; repeat split.
Qed.

(** Variant C, a target whose page does not render: [scrapeProduct] makes
    its one navigation and logs from its [catch].  When the append succeeds
    the log gets one line with the URL and the error message, and
    [scrapeProduct] returns [null]; when it throws, nothing is appended and
    the exception leaves [scrapeProduct].  Either way the loop pushes the
    URL with the date on [failedLinks], and nothing on [scrapedData], for
    this target. *)
Theorem variant_C_failure_is_logged (date : string) (target : Target) (n : nat) :
  is_rendered (page n (product_link target)) = false ->
  let url := product_link target in
  let r := scrapeProduct_C array_length_of page append_error date url n in
  let message := error_message (page n url) in
  let line := log_entry date url ("Error scraping product: " ++ message) in
  clock_of r = S n
  /\ (append_error (S n) 0 = None ->
      value_of r = Fulfilled None
      /\ appended (events_of r) = [(log_path date, line)]
      /\ JsString.includes url line = true
      /\ JsString.includes message line = true)
  /\ (forall thrown,
        append_error (S n) 0 = Some thrown ->
        value_of r = Rejected thrown /\ appended (events_of r) = [])
  /\ forall rest scrapedData failedLinks,
      exists sd fl,
        value_of (main_loop_C array_length_of page append_error date (target :: rest)
                    scrapedData failedLinks n)
        = (scrapedData ++ sd,
           failedLinks ++ {| failed_url := url; timestamp := date |} :: fl)
        /\ Interleave (map url_C sd) (map failed_url fl) (map product_link rest).
Proof.
  intros Hfail; cbv zeta.
  assert (Hrun : scrapeProduct_C array_length_of page append_error date
                   (product_link target) n
                 = (match append_error (S n) 0 with
                    | None => Fulfilled None
                    | Some thrown => Rejected thrown
                    end,
                    S n,
                    attempt_events (product_link target) (page n (product_link target))
                    ++ match append_error (S n) 0 with
                       | None =>
                           [AppendFile (log_path date)
                              (log_entry date (product_link target)
                                 ("Error scraping product: "
                                  ++ error_message (page n (product_link target))))]
                       | Some _ => []
                       end)).
  { unfold scrapeProduct_C, scrapeProduct_C_catch, logErrorToFile, bind, navigate.
    destruct (page n (product_link target)); try discriminate Hfail;
      destruct (append_error (S n) 0); reflexivity. }
  rewrite Hrun; cbn [value_of clock_of events_of fst snd].
  rewrite appended_app, appended_attempt_events.
  split; [reflexivity |]. split; [| split].
  - intros ->; repeat split.
    + apply log_entry_includes_url.
    + apply log_entry_includes_message.
  - intros thrown ->; now split.
  - intros rest sd0 fl0; rewrite main_loop_C_step; cbv zeta; rewrite Hrun.
    cbn [value_of clock_of fst snd].
    destruct (main_loop_C_shuffle array_length_of page append_error date rest sd0
                (fl0 ++ [{| failed_url := product_link target; timestamp := date |}]) (S n))
      as (sd & fl & Hv & Hi).
    exists sd, fl.
    destruct (append_error (S n) 0); rewrite Hv, <- app_assoc;
      (split; [reflexivity | exact Hi]).
Qed.

End VariantCProperties.

(** ** Objects *)

Lemma get_own_define_own (o : JsObject) (key value key' : string) :
  JsValue.get_own (JsValue.define_own o key value) key'
  = if String.eqb key key' then Some value else JsValue.get_own o key'.
Proof.
  induction o as [| [k v] o IH]; cbn [JsValue.define_own JsValue.get_own].
  - reflexivity.
  - destruct (String.eqb_spec k key) as [-> | Hne]; cbn [JsValue.get_own].
    + now destruct (String.eqb key key').
    + rewrite IH; destruct (String.eqb_spec k key') as [-> | Hne'];
        [| reflexivity].
      destruct (String.eqb_spec key key'); [congruence | reflexivity].
Qed.

Lemma define_own_keys (o : JsObject) (key value : string) :
  map fst (JsValue.define_own o key value)
  = if Realms.mem key (map fst o) then map fst o else map fst o ++ [key].
Proof.
  induction o as [| [k v] o IH]; cbn [JsValue.define_own map fst Realms.mem existsb app];
    [reflexivity |].
  rewrite (String.eqb_sym key k).
  destruct (String.eqb k key); cbn [map fst orb]; [reflexivity |].
  unfold Realms.mem in IH; rewrite IH.
  now destruct (existsb _ _).
Qed.

Lemma mem_In (x : string) (l : list string) : Realms.mem x l = true <-> In x l.
Proof.
  unfold Realms.mem; rewrite existsb_exists; split.
  - intros (y & Hy & ->%String.eqb_eq); exact Hy.
  - intros H; exists x; split; [exact H | apply String.eqb_refl].
Qed.

Lemma define_own_NoDup (o : JsObject) (key value : string) :
  NoDup (map fst o) -> NoDup (map fst (JsValue.define_own o key value)).
Proof.
  intros H; rewrite define_own_keys.
  destruct (Realms.mem key (map fst o)) eqn:E; [exact H |].
  apply NoDup_app; repeat split; try assumption.
  - constructor; [easy | constructor].
  - intros x Hx [<- | []].
    apply mem_In in Hx; congruence.
Qed.

Lemma object_put_NoDup (o : JsObject) (key value : string) :
  NoDup (map fst o) -> NoDup (map fst (JsValue.object_put o key value)).
Proof.
  unfold JsValue.object_put; destruct (String.eqb key "__proto__"); [easy |].
  apply define_own_NoDup.
Qed.

Lemma object_put_no_proto (o : JsObject) (key value : string) :
  ~ In "__proto__" (map fst o) ->
  ~ In "__proto__" (map fst (JsValue.object_put o key value)).
Proof.
  unfold JsValue.object_put.
  destruct (String.eqb_spec key "__proto__") as [Heq | Hne]; [easy |].
  rewrite define_own_keys; destruct (Realms.mem _ _); [easy |].
  intros Ho [H | [Hk | []]]%in_app_or; [now apply Ho | now apply Hne].
Qed.

Lemma get_own_object_put (o : JsObject) (key value key' : string) :
  JsValue.get_own (JsValue.object_put o key value) key'
  = if String.eqb key key' && negb (String.eqb key "__proto__")
    then Some value else JsValue.get_own o key'.
Proof.
  unfold JsValue.object_put; destruct (String.eqb key "__proto__") eqn:E; cbn [negb].
  - now rewrite andb_false_r.
  - now rewrite andb_true_r, get_own_define_own.
Qed.

Lemma fill_app (o : JsObject) (l1 l2 : list (string * string)) :
  fill o (l1 ++ l2) = fill (fill o l1) l2.
Proof. apply fold_left_app. Qed.

Lemma get_own_fill (l : list (string * string)) (key : string) :
  key <> "__proto__" ->
  forall o,
    JsValue.get_own (fill o l) key
    = match last_value l key with
      | Some v => Some v
      | None => JsValue.get_own o key
      end.
Proof.
  intros Hkey; induction l as [| [k v] l IH]; intros o; [reflexivity |].
  cbn [fill fold_left last_value fst snd]; fold (fill (JsValue.object_put o k v) l).
  rewrite IH; destruct (last_value l key); [reflexivity |].
  rewrite get_own_object_put.
  destruct (String.eqb_spec k key) as [-> | Hne]; cbn [andb]; [| reflexivity].
  now apply String.eqb_neq in Hkey as ->.
Qed.

Lemma fill_NoDup (l : list (string * string)) :
  forall o, NoDup (map fst o) -> NoDup (map fst (fill o l)).
Proof.
  induction l as [| [k v] l IH]; intros o H; [exact H |].
  apply IH, object_put_NoDup, H.
Qed.

(** ** What every record satisfies *)

Section RecordInvariants.

Variable array_length_of : string -> option nat.

Lemma put_member_data (h : Heap) (target : Ref) (key value : string) :
  let d := data (state_of (put_member array_length_of h target key value)) in
  d = data h
  \/ (exists a, d = set_images (data h) a)
  \/ (exists k, d = set_section (data h) k
                      (JsValue.object_put (get_section (data h) k) key value)).
Proof.
  cbv zeta; destruct target as [| s | | k | | b]; cbn [put_member state_of data]; auto.
  - right; left; destruct (array_put _ _ _ _) as [a | a]; now exists a.
  - right; right; now exists k.
  - left; unfold with_realm; now destruct (Realms.function_put _ _ _ _).
Qed.

(** A property of [data] that holds when the callback starts and that
    neither an assignment to the image array nor one to a section breaks
    holds of the record. *)
Lemma evaluate_callback_invariant (P : ProductData -> Prop)
  (collect : Document -> JsArray) (doc : Document) :
  (forall d a, P d -> P (set_images d a)) ->
  (forall d k key value,
      P d -> P (set_section d k (JsValue.object_put (get_section d k) key value))) ->
  P {| product_name := text_or_empty (title doc);
       part_number := text_or_empty (sku doc);
       images := collect doc;
       oem_reference := []; compatibility := []; technical_specifications := [] |} ->
  P (evaluate_callback array_length_of collect doc).
Proof.
  intros Himg Hsec H0; unfold evaluate_callback, serialise; apply Himg.
  apply (forEach_preserves (fun h => P (data h))); [| exact H0].
  intros h rows _ Hh; unfold process_table.
  apply (forEach_preserves (fun h => P (data h))); [| exact Hh].
  intros h' r _ Hh'; unfold process_row.
  destruct (cells r) as [| c0 [| c1 [| c2 l]]]; try exact Hh'.
  destruct (_ && _); [| exact Hh'].
  destruct (put_member_data h' (get_data h' (sectionName_of rows)) (key_of_cell c0)
              (JsString.trim c1)) as [-> | [(a & ->) | (k & ->)]]; auto.
Qed.

(** Whatever the page holds, the record of variants A, B and C has its
    name and part number from the title and the SKU element, trimmed, or
    empty when the element is missing: no table changes them. *)
Theorem record_names_come_from_the_page (doc : Document) :
  product_name (extract_A array_length_of doc)
  = match title doc with Some t => JsString.trim t | None => EmptyString end
  /\ part_number (extract_A array_length_of doc)
     = match sku doc with Some t => JsString.trim t | None => EmptyString end
  /\ product_name (extract_C array_length_of doc) = product_name (extract_A array_length_of doc)
  /\ part_number (extract_C array_length_of doc) = part_number (extract_A array_length_of doc).
Proof.
  assert (H : forall collect,
             product_name (evaluate_callback array_length_of collect doc)
             = text_or_empty (title doc)
             /\ part_number (evaluate_callback array_length_of collect doc)
                = text_or_empty (sku doc)).
  { intros collect.
    apply (evaluate_callback_invariant
             (fun d => product_name d = text_or_empty (title doc)
                       /\ part_number d = text_or_empty (sku doc)));
      [intros d a H; exact H | intros d k key value H; exact H | now split]. }
  unfold extract_A, extract_C.
  destruct (H images_A) as [-> ->], (H images_C) as [-> ->].
  now repeat split.
Qed.


End RecordInvariants.

(** ** Sections of a page with ordinary headings *)

Lemma section_name_not_beyond (k : SectionKind) :
  reaches_beyond_sections (section_name k) = false
  /\ reaches_beyond_tempData (section_name k) = false
  /\ JsString.truthy (section_name k) = true.
Proof. now destruct k. Qed.

Lemma inherited_pristine (name : string) :
  reaches_beyond_tempData name = false -> Realms.inherited pristine name = RUndefined.
Proof.
  unfold reaches_beyond_tempData, Realms.mem; cbn [existsb].
  intros [Hp [Hc Hm]%orb_false_elim]%orb_false_elim.
  unfold Realms.inherited, Realms.mem; cbn [prototype_props pristine JsValue.get_own].
  now rewrite Hp, Hc, Hm.
Qed.

Lemma get_data_classified (h : Heap) (name : string) :
  realm h = pristine ->
  reaches_beyond_sections name = false ->
  (exists k, name = section_name k /\ get_data h name = RSection k)
  \/ ((forall k, name <> section_name k)
      /\ (get_data h name = RUndefined \/ exists s, get_data h name = RPrimitive s)).
Proof.
  intros Hrealm Hb.
  assert (Hi : name <> "images") by (intros ->; discriminate Hb).
  assert (Ht : reaches_beyond_tempData name = false).
  { unfold reaches_beyond_sections, Realms.mem in Hb; cbn [existsb] in Hb.
    now apply orb_false_elim in Hb as [_ Hb]. }
  unfold get_data; rewrite Hrealm.
  destruct (String.eqb_spec name "product_name") as [-> | H1].
  { right; split; [intros []; discriminate | right; eauto]. }
  destruct (String.eqb_spec name "part_number") as [-> | H2].
  { right; split; [intros []; discriminate | right; eauto]. }
  destruct (String.eqb_spec name "images") as [-> | _]; [easy |].
  destruct (String.eqb_spec name "oem_reference") as [-> | H3];
    [left; now exists OemReference |].
  destruct (String.eqb_spec name "compatibility") as [-> | H4];
    [left; now exists Compatibility |].
  destruct (String.eqb_spec name "technical_specifications") as [-> | H5];
    [left; now exists TechnicalSpecifications |].
  right; split; [intros []; assumption | left; now apply inherited_pristine].
Qed.

Lemma get_set_section (d : ProductData) (k0 k : SectionKind) (o : JsObject) :
  get_section (set_section d k0 o) k
  = if String.eqb (section_name k0) (section_name k) then o else get_section d k.
Proof. now destruct k0, k. Qed.

Lemma pairs_of_cons (r : Row) (rows : list Row) :
  pairs_of (r :: rows) = pairs_of [r] ++ pairs_of rows.
Proof. unfold pairs_of; cbn [flat_map]; now rewrite app_nil_r. Qed.

Section OrdinaryHeadings.

Variable array_length_of : string -> option nat.

Lemma process_row_sections (name : string) (h : Heap) (r : Row) :
  realm h = pristine ->
  reaches_beyond_sections name = false ->
  exists h',
    process_row array_length_of name h r = Normal h'
    /\ realm h' = pristine
    /\ images (data h') = images (data h)
    /\ forall k,
        get_section (data h') k
        = if String.eqb name (section_name k)
          then fill (get_section (data h) k) (pairs_of [r])
          else get_section (data h) k.
Proof.
  intros Hrealm Hb; unfold process_row, pairs_of; cbn [flat_map].
  assert (Hsame : forall l,
             (forall k, get_section (data h) k
                        = if String.eqb name (section_name k)
                          then fill (get_section (data h) k) l
                          else get_section (data h) k) ->
             exists h', Normal h = Normal h' /\ realm h' = pristine
                        /\ images (data h') = images (data h)
                        /\ forall k, get_section (data h') k
                                     = if String.eqb name (section_name k)
                                       then fill (get_section (data h) k) l
                                       else get_section (data h) k)
    by (intros l Hl; exists h; auto).
  destruct (cells r) as [| c0 [| c1 [| c2 l]]];
    try (apply Hsame; intros k; now destruct (String.eqb _ _)).
  cbn [app].
  destruct (get_data_classified h name Hrealm Hb)
    as [(k0 & -> & Hget) | (Hnot & [Hget | (s & Hget)])]; rewrite Hget.
  - destruct (section_name_not_beyond k0) as (_ & _ & ->); cbn [Realms.truthy andb put_member].
    eexists; split; [reflexivity |]; cbn [realm data]; repeat split; [assumption |].
    intros k; rewrite get_set_section.
    destruct (String.eqb (section_name k0) (section_name k)) eqn:E; [| reflexivity].
    destruct k0, k; try discriminate E; reflexivity.
  - cbn [Realms.truthy]; rewrite andb_false_r.
    exists h; repeat split; try assumption.
    intros k; destruct (String.eqb_spec name (section_name k)) as [E | _]; [| reflexivity].
    now apply Hnot in E.
  - cbn [put_member]; destruct (_ && _);
      (exists h; repeat split; try assumption;
       intros k; destruct (String.eqb_spec name (section_name k)) as [E | _]; [| reflexivity];
       now apply Hnot in E).
Qed.

Lemma rows_sections (name : string) (rows : list Row) :
  forall h,
    realm h = pristine ->
    reaches_beyond_sections name = false ->
    exists h',
      forEach (process_row array_length_of name) h rows = Normal h'
      /\ realm h' = pristine
      /\ images (data h') = images (data h)
      /\ forall k,
          get_section (data h') k
          = if String.eqb name (section_name k)
            then fill (get_section (data h) k) (pairs_of rows)
            else get_section (data h) k.
Proof.
  induction rows as [| r rows IH]; intros h Hrealm Hb.
  - exists h; repeat split; try assumption.
    intros k; now destruct (String.eqb _ _).
  - cbn [forEach].
    destruct (process_row_sections name h r Hrealm Hb) as (h1 & -> & Hr1 & Hi1 & Hs1).
    destruct (IH h1 Hr1 Hb) as (h2 & -> & Hr2 & Hi2 & Hs2).
    exists h2; repeat split; [assumption | congruence |].
    intros k; rewrite Hs2, Hs1.
    rewrite (pairs_of_cons r rows), fill_app; now destruct (String.eqb _ _).
Qed.

Lemma tables_sections (tabs : list Table) :
  forall h,
    realm h = pristine ->
    (forall rows, In rows tabs -> reaches_beyond_sections (sectionName_of rows) = false) ->
    exists h',
      forEach (process_table array_length_of) h tabs = Normal h'
      /\ realm h' = pristine
      /\ images (data h') = images (data h)
      /\ forall k,
          get_section (data h') k = fill (get_section (data h) k) (section_rows k tabs).
Proof.
  induction tabs as [| rows tabs IH]; intros h Hrealm Hb.
  - exists h; repeat split; assumption.
  - cbn [forEach]; unfold process_table at 1.
    destruct (rows_sections (sectionName_of rows) (tl rows) h Hrealm
                (Hb rows (or_introl eq_refl))) as (h1 & -> & Hr1 & Hi1 & Hs1).
    destruct (IH h1 Hr1 (fun t Ht => Hb t (or_intror Ht))) as (h2 & -> & Hr2 & Hi2 & Hs2).
    exists h2; repeat split; [assumption | congruence |].
    intros k; rewrite Hs2, Hs1.
    unfold section_rows; cbn [flat_map]; rewrite fill_app.
    now destruct (String.eqb _ _).
Qed.

End OrdinaryHeadings.

Section OrdinaryPages.

Variable array_length_of : string -> option nat.

Lemma evaluate_callback_sections (collect : Document -> JsArray) (doc : Document)
  (k : SectionKind) :
  (forall rows, In rows (tables doc) -> reaches_beyond_sections (sectionName_of rows) = false) ->
  get_section (evaluate_callback array_length_of collect doc) k
  = fill [] (section_rows k (tables doc)).
Proof.
  intros Hb; unfold evaluate_callback.
  edestruct (tables_sections array_length_of (tables doc)) as (h' & -> & _ & _ & Hs);
    [| exact Hb |]; [reflexivity |].
  cbn [state_of].
  replace (get_section (serialise h') k) with (get_section (data h') k)
    by now destruct k.
  rewrite Hs; now destruct k.
Qed.

(** A page none of whose tables has a section name that reaches the image
    array, [Object.prototype], [Object] or a method of [Object.prototype]:
    each section of the record of variants A, B and C is what assigning,
    in document order, the two-cell rows after the first row of the tables
    of that section gives, keys normalised and values trimmed.  Hence a
    key holds the value of the last such row that has it. *)
Theorem sections_collect_two_cell_rows (doc : Document) (k : SectionKind) :
  (forall rows, In rows (tables doc) -> reaches_beyond_sections (sectionName_of rows) = false) ->
  get_section (extract_A array_length_of doc) k = fill [] (section_rows k (tables doc))
  /\ get_section (extract_C array_length_of doc) k = fill [] (section_rows k (tables doc))
  /\ forall key,
      key <> "__proto__" ->
      JsValue.get_own (get_section (extract_A array_length_of doc) k) key
      = last_value (section_rows k (tables doc)) key.
Proof.
  intros Hb; unfold extract_A, extract_C.
  rewrite !evaluate_callback_sections by assumption.
  repeat split.
  intros key Hkey; rewrite get_own_fill by assumption.
  now destruct (last_value _ _).
Qed.

End OrdinaryPages.

(** ** Sections of variant D *)

Lemma get_set_temp_section (h : TempHeap) (k0 k : SectionKind) (o : JsObject) :
  get_temp_section (set_temp_section h k0 o) k
  = if String.eqb (section_name k0) (section_name k) then o else get_temp_section h k.
Proof. now destruct k0, k. Qed.

Lemma get_temp_classified (h : TempHeap) (name : string) :
  temp_realm h = pristine ->
  reaches_beyond_tempData name = false ->
  (exists k, name = section_name k /\ get_temp h name = RSection k)
  \/ ((forall k, name <> section_name k) /\ get_temp h name = RUndefined).
Proof.
  intros Hrealm Hb; unfold get_temp; rewrite Hrealm.
  destruct (String.eqb_spec name "oem_reference") as [-> | H3];
    [left; now exists OemReference |].
  destruct (String.eqb_spec name "compatibility") as [-> | H4];
    [left; now exists Compatibility |].
  destruct (String.eqb_spec name "technical_specifications") as [-> | H5];
    [left; now exists TechnicalSpecifications |].
  right; split; [intros []; assumption | now apply inherited_pristine].
Qed.

Lemma pairs_D_cons (r : Row) (rows : list Row) :
  pairs_D (r :: rows) = pairs_D [r] ++ pairs_D rows.
Proof. unfold pairs_D; cbn [flat_map]; now rewrite app_nil_r. Qed.

Lemma rows_sections_D (k0 : SectionKind) (rows : list Row) :
  forall h,
    temp_realm h = pristine ->
    exists h',
      forEach (process_row_D (section_name k0)) h rows = Normal h'
      /\ temp_realm h' = pristine
      /\ forall k,
          get_temp_section h' k
          = if String.eqb (section_name k0) (section_name k)
            then fill (get_temp_section h k) (pairs_D rows)
            else get_temp_section h k.
Proof.
  induction rows as [| r rows IH]; intros h Hrealm.
  - exists h; repeat split; [assumption |].
    intros k; now destruct (String.eqb _ _).
  - cbn [forEach].
    assert (Hrow : exists h1,
               process_row_D (section_name k0) h r = Normal h1
               /\ temp_realm h1 = pristine
               /\ forall k,
                   get_temp_section h1 k
                   = if String.eqb (section_name k0) (section_name k)
                     then fill (get_temp_section h k) (pairs_D [r])
                     else get_temp_section h k).
    { unfold process_row_D, pairs_D; cbn [flat_map].
      destruct (cells r) as [| c0 [| c1 [| c2 l]]];
        try (exists h; repeat split; [assumption |];
             intros k; now destruct (String.eqb _ _)).
      destruct (JsString.truthy (JsString.trim c0));
        [| exists h; repeat split; [assumption |]; intros k; now destruct (String.eqb _ _)].
      replace (get_temp h (section_name k0)) with (RSection k0) by (now destruct k0).
      cbn [put_member_D app fill fold_left fst snd].
      eexists; split; [reflexivity |]; split; [exact Hrealm |].
      intros k; rewrite get_set_temp_section.
      destruct (String.eqb (section_name k0) (section_name k)) eqn:E; [| reflexivity].
      destruct k0, k; try discriminate E; reflexivity. }
    destruct Hrow as (h1 & -> & Hr1 & Hs1).
    destruct (IH h1 Hr1) as (h2 & -> & Hr2 & Hs2).
    exists h2; repeat split; [assumption |].
    intros k; rewrite Hs2, Hs1, (pairs_D_cons r rows), fill_app.
    now destruct (String.eqb _ _).
Qed.

Lemma tables_sections_D (tabs : list Table) :
  forall h,
    temp_realm h = pristine ->
    (forall rows, In rows tabs -> reaches_beyond_tempData (sectionName_D rows) = false) ->
    exists h',
      forEach process_table_D h tabs = Normal h'
      /\ temp_realm h' = pristine
      /\ forall k, get_temp_section h' k = fill (get_temp_section h k) (section_rows_D k tabs).
Proof.
  induction tabs as [| rows tabs IH]; intros h Hrealm Hb.
  - exists h; repeat split; assumption.
  - cbn [forEach].
    assert (Htable : exists h1,
               process_table_D h rows = Normal h1
               /\ temp_realm h1 = pristine
               /\ forall k,
                   get_temp_section h1 k
                   = fill (get_temp_section h k)
                       (if String.eqb (sectionName_D rows) (section_name k)
                        then pairs_D rows else [])).
    { unfold process_table_D.
      destruct (get_temp_classified h (sectionName_D rows) Hrealm
                  (Hb rows (or_introl eq_refl))) as [(k0 & Hname & Hget) | (Hnot & Hget)];
        rewrite Hget.
      - rewrite Hname.
        destruct (section_name_not_beyond k0) as (_ & _ & ->); cbn [Realms.truthy negb orb].
        destruct (rows_sections_D k0 rows h Hrealm) as (h1 & -> & Hr1 & Hs1).
        exists h1; repeat split; [assumption |].
        intros k; rewrite Hs1; now destruct (String.eqb _ _).
      - cbn [Realms.truthy negb]; rewrite orb_true_r.
        exists h; repeat split; [assumption |].
        intros k; destruct (String.eqb_spec (sectionName_D rows) (section_name k)) as [E | _];
          [now apply Hnot in E | reflexivity]. }
    destruct Htable as (h1 & -> & Hr1 & Hs1).
    destruct (IH h1 Hr1 (fun t Ht => Hb t (or_intror Ht))) as (h2 & -> & Hr2 & Hs2).
    exists h2; repeat split; [assumption |].
    intros k; rewrite Hs2, Hs1.
    unfold section_rows_D; cbn [flat_map]; now rewrite fill_app.
Qed.

Lemma createTableHTML_pristine (o : JsObject) : createTableHTML pristine o <> None.
Proof. now destruct o. Qed.

(** Variant D on a page none of whose tables has a section name that
    reaches [Object.prototype], [Object] or a method of
    [Object.prototype]: [tempData] collects, for each section, every
    two-cell row with a non-empty key of the tables of that section, the
    first row included, keys and values trimmed; the record holds the
    three sections rendered by [createTableHTML], and
    [product_category_string] is the value collected under [Category] in
    the technical specifications, or the empty string. *)
Theorem variant_D_sections (doc : Document) :
  (forall rows, In rows (tables doc) -> reaches_beyond_tempData (sectionName_D rows) = false) ->
  let collected k := fill [] (section_rows_D k (tables doc)) in
  let rendered k := or_empty (createTableHTML pristine (collected k)) in
  (forall k, get_temp_section (state_of (tempData_D doc)) k = collected k)
  /\ oem_reference_D (extract_D doc) = rendered OemReference
  /\ compatibility_D (extract_D doc) = rendered Compatibility
  /\ technical_specifications_D (extract_D doc) = rendered TechnicalSpecifications
  /\ product_category_string (extract_D doc)
     = or_empty (JsValue.get_own (collected TechnicalSpecifications) "Category")
  /\ (forall k, rendered k = EmptyString <-> collected k = []).
Proof.
  intros Hb; cbv zeta.
  destruct (tables_sections_D (tables doc)
              {| temp_oem_reference := []; temp_compatibility := [];
                 temp_technical_specifications := []; temp_realm := pristine |}
              eq_refl Hb) as (h & Hrun & Hrealm & Hs).
  assert (Hsec : forall k, get_temp_section h k = fill [] (section_rows_D k (tables doc)))
    by (intros k; rewrite Hs; now destruct k).
  unfold extract_D, tempData_D; rewrite Hrun; cbn [state_of].
  split; [exact Hsec |].
  rewrite Hrealm.
  rewrite <- (Hsec OemReference), <- (Hsec Compatibility), <- (Hsec TechnicalSpecifications).
  cbn [get_temp_section].
  assert (Hcat : category_of h = or_empty (JsValue.get_own (temp_technical_specifications h)
                                             "Category")).
  { unfold category_of; rewrite Hrealm; now destruct (JsValue.get_own _ _). }
  pose proof (createTableHTML_pristine (temp_oem_reference h)) as H1.
  pose proof (createTableHTML_pristine (temp_compatibility h)) as H2.
  pose proof (createTableHTML_pristine (temp_technical_specifications h)) as H3.
  destruct (createTableHTML pristine (temp_oem_reference h)) eqn:E1; [| easy].
  destruct (createTableHTML pristine (temp_compatibility h)) eqn:E2; [| easy].
  destruct (createTableHTML pristine (temp_technical_specifications h)) eqn:E3; [| easy].
  cbn [oem_reference_D compatibility_D technical_specifications_D product_category_string
         or_empty].
  repeat split; try assumption.
  - intros H; destruct (fill [] (section_rows_D k (tables doc))); [reflexivity | discriminate H].
  - now intros ->.
Qed.

(** ** Rendering order *)

Lemma insert_by_index_Permutation (e : N * (string * string))
  (l : list (N * (string * string))) :
  Permutation (JsValue.insert_by_index e l) (e :: l).
Proof.
  induction l as [| x l IH]; cbn [JsValue.insert_by_index]; [reflexivity |].
  destruct (fst e <? fst x)%N; [reflexivity |].
  rewrite IH; apply perm_swap.
Qed.

Lemma insert_by_index_sorted (e : N * (string * string))
  (l : list (N * (string * string))) :
  StronglySorted (fun a b => (fst a <= fst b)%N) l ->
  StronglySorted (fun a b => (fst a <= fst b)%N) (JsValue.insert_by_index e l).
Proof.
  induction 1 as [| x l Hs IH Hall]; cbn [JsValue.insert_by_index].
  - repeat constructor.
  - destruct (N.ltb_spec (fst e) (fst x)) as [Hlt | Hge].
    + constructor; [now constructor |].
      constructor; [lia |].
      eapply Forall_impl; [| exact Hall]; cbn; intros; lia.
    + constructor; [exact IH |].
      rewrite insert_by_index_Permutation; now constructor.
Qed.


(** ** Keys and headings *)

Lemma lower_char_not_upper (c : ascii) : is_upper (JsString.lower_char c) = false.
Proof. destruct c as [[] [] [] [] [] [] [] []]; reflexivity. Qed.

Lemma lower_char_white_space (c : ascii) :
  JsString.is_white_space (JsString.lower_char c) = JsString.is_white_space c.
Proof. destruct c as [[] [] [] [] [] [] [] []]; reflexivity. Qed.

Lemma lower_char_colon (c : ascii) :
  Ascii.eqb (JsString.lower_char c) ":" = Ascii.eqb c ":".
Proof. destruct c as [[] [] [] [] [] [] [] []]; reflexivity. Qed.

Lemma lower_char_idempotent (c : ascii) :
  JsString.lower_char (JsString.lower_char c) = JsString.lower_char c.
Proof. destruct c as [[] [] [] [] [] [] [] []]; reflexivity. Qed.

Lemma toLowerCase_idempotent (s : string) :
  JsString.toLowerCase (JsString.toLowerCase s) = JsString.toLowerCase s.
Proof. induction s as [| c s IH]; cbn; [reflexivity |]. now rewrite lower_char_idempotent, IH. Qed.

Lemma toLowerCase_trimStart (s : string) :
  JsString.toLowerCase (JsString.trimStart s) = JsString.trimStart (JsString.toLowerCase s).
Proof.
  induction s as [| c s IH]; [reflexivity |].
  cbn [JsString.trimStart JsString.toLowerCase]; rewrite lower_char_white_space.
  now destruct (JsString.is_white_space c).
Qed.

Lemma toLowerCase_trimEnd (s : string) :
  JsString.toLowerCase (JsString.trimEnd s) = JsString.trimEnd (JsString.toLowerCase s).
Proof.
  induction s as [| c s IH]; [reflexivity |].
  cbn [JsString.trimEnd JsString.toLowerCase]; rewrite <- IH, lower_char_white_space.
  destruct (JsString.trimEnd s); cbn [JsString.toLowerCase]; [| reflexivity].
  now destruct (JsString.is_white_space c).
Qed.

Lemma toLowerCase_trim (s : string) :
  JsString.toLowerCase (JsString.trim s) = JsString.trim (JsString.toLowerCase s).
Proof. unfold JsString.trim; now rewrite toLowerCase_trimEnd, toLowerCase_trimStart. Qed.

Lemma toLowerCase_remove_colon (s : string) :
  JsString.toLowerCase (JsString.remove_first ":" s)
  = JsString.remove_first ":" (JsString.toLowerCase s).
Proof.
  induction s as [| c s IH]; [reflexivity |].
  cbn [JsString.remove_first JsString.toLowerCase]; rewrite lower_char_colon.
  destruct (Ascii.eqb c ":"); cbn [JsString.toLowerCase]; congruence.
Qed.

Lemma spaces_to_underscores_normal (s : string) :
  string_forall (fun c => negb (is_upper c)) s = true ->
  string_forall (fun c => negb (is_upper c) && negb (Ascii.eqb c " "))
    (JsString.spaces_to_underscores s) = true.
Proof.
  induction s as [| c s IH]; [reflexivity |].
  cbn [string_forall JsString.spaces_to_underscores]; intros [Hc Hs]%andb_prop.
  rewrite (IH Hs), andb_true_r.
  destruct (Ascii.eqb c " ") eqn:E; [reflexivity |].
  now rewrite Hc, E.
Qed.

Lemma toLowerCase_no_upper (s : string) :
  string_forall (fun c => negb (is_upper c)) (JsString.toLowerCase s) = true.
Proof.
  induction s as [| c s IH]; [reflexivity |].
  cbn [string_forall JsString.toLowerCase]; now rewrite lower_char_not_upper, IH.
Qed.

(** The keys of variants A, B and C and the headings they match against
    hold no capital letter A-Z and no space, and neither changes when the
    text of the cell or of the row changes case: matching a heading and
    naming a key are case-insensitive. *)
Theorem keys_and_headings_ignore_case (text : string) (r : Row) :
  let lowered := {| strong_text := strong_text r;
                    row_text := JsString.toLowerCase (row_text r);
                    cells := cells r |} in
  string_forall (fun c => negb (is_upper c) && negb (Ascii.eqb c " ")) (key_of_cell text) = true
  /\ string_forall (fun c => negb (is_upper c) && negb (Ascii.eqb c " ")) (heading_of_row r)
     = true
  /\ key_of_cell (JsString.toLowerCase text) = key_of_cell text
  /\ heading_of_row lowered = heading_of_row r
  /\ sectionName_of (lowered :: nil) = sectionName_of (r :: nil).
Proof.
  cbv zeta.
  assert (Hk : key_of_cell (JsString.toLowerCase text) = key_of_cell text)
    by (unfold key_of_cell; now rewrite <- toLowerCase_trim, toLowerCase_idempotent).
  assert (Hh : forall t,
             JsString.spaces_to_underscores
               (JsString.toLowerCase (JsString.remove_first ":"
                                        (JsString.trim (JsString.toLowerCase t))))
             = JsString.spaces_to_underscores
                 (JsString.toLowerCase (JsString.remove_first ":" (JsString.trim t))))
    by (intros t; now rewrite <- toLowerCase_trim, <- toLowerCase_remove_colon,
                    toLowerCase_idempotent).
  repeat split.
  - apply spaces_to_underscores_normal, toLowerCase_no_upper.
  - apply spaces_to_underscores_normal, toLowerCase_no_upper.
  - exact Hk.
  - apply Hh.
  - unfold sectionName_of, heading_of_row; cbn [strong_text row_text]; now rewrite Hh.
Qed.

(** ** Identifiers *)

Lemma length_append (a b : string) :
  String.length (a ++ b) = String.length a + String.length b.
Proof. induction a as [| c a IH]; cbn; congruence. Qed.

Lemma startsWith_app_long (p : string) :
  forall a t, String.length p <= String.length a ->
              JsString.startsWith p (a ++ t) = JsString.startsWith p a.
Proof.
  induction p as [| c p IH]; intros a t Hlen; [reflexivity |].
  destruct a as [| d a]; cbn in Hlen; [lia |].
  cbn [append JsString.startsWith]; rewrite IH by lia; reflexivity.
Qed.

Lemma split_at_marker (slug : string) (base : string) :
  forall cur,
    JsString.includes "/products/" (base ++ "/products") = false ->
    JsString.split_from "/products/" 0 cur (base ++ "/products/" ++ slug)
    = (cur ++ base)%string :: JsString.split_from "/products/" 0 EmptyString slug.
Proof.
  induction base as [| c base IH]; intros cur Hfree.
  - rewrite append_nil_r; reflexivity.
  - cbn [append] in Hfree; apply includes_cons_false in Hfree as [Hs Hi].
    change (String c base ++ "/products/" ++ slug)%string
      with (String c (base ++ "/products/" ++ slug)).
    cbn [JsString.split_from].
    assert (Heq : JsString.startsWith "/products/" (String c (base ++ "/products/" ++ slug))
                  = JsString.startsWith "/products/" (String c (base ++ "/products"))).
    { change (String c (base ++ "/products/" ++ slug))
        with (String c base ++ ("/products" ++ String "/" slug))%string.
      rewrite <- append_assoc.
      apply startsWith_app_long.
      cbn [append String.length]; rewrite length_append; cbn; lia. }
    rewrite Heq, Hs, (IH _ Hi), append_assoc; reflexivity.
Qed.

(** The identifier of variant D is the text after the marker: when
    [/products/] first occurs at the end of [base] and does not occur in
    [slug], the URL [base/products/slug] splits in [base] and [slug], and
    the identifier is [slug]. *)
Theorem id_is_the_segment_after_the_marker (base slug : string) :
  JsString.includes "/products/" (base ++ "/products") = false ->
  JsString.includes "/products/" slug = false ->
  JsString.split "/products/" (base ++ "/products/" ++ slug) = [base; slug]
  /\ id_of_url (base ++ "/products/" ++ slug) = Some slug.
Proof.
  intros Hbase Hslug.
  assert (H : JsString.split "/products/" (base ++ "/products/" ++ slug) = [base; slug])
    by (unfold JsString.split; now rewrite split_at_marker, split_without_separator).
  split; [exact H |].
  unfold id_of_url; now rewrite H.
Qed.

(** ** Image URLs *)

Lemma before_first_lacks_char (c : ascii) (s : string) :
  JsString.includes (String c EmptyString) (JsString.before_first c s) = false.
Proof.
  induction s as [| d s IH]; [reflexivity |].
  cbn [JsString.before_first].
  destruct (Ascii.eqb d c) eqn:E; [reflexivity |].
  cbn [JsString.includes JsString.startsWith].
  now rewrite Ascii.eqb_sym, E, IH.
Qed.

Lemma normalised_is_absolute (imgSrc : string) :
  JsString.startsWith "http" (normalised imgSrc) = true.
Proof.
  unfold normalised.
  destruct (JsString.startsWith "http" imgSrc) eqn:E; [| reflexivity].
  destruct imgSrc as [| a [| b [| c [| d rest]]]];
    cbn [JsString.startsWith] in E; rewrite ?andb_false_r in E; try discriminate E.
  apply andb_prop in E as [<-%Ascii.eqb_eq E].
  apply andb_prop in E as [<-%Ascii.eqb_eq E].
  apply andb_prop in E as [<-%Ascii.eqb_eq E].
  apply andb_prop in E as [<-%Ascii.eqb_eq _].
  reflexivity.
Qed.

(** Every image URL of variant C starts with [http] and holds no [?]. *)
Theorem images_C_are_absolute_without_query (doc : Document) :
  Forall (fun u => JsString.startsWith "http" u = true /\ JsString.includes "?" u = false)
    (imageUrls_C doc)
  /\ elements (images_C doc) = imageUrls_C doc.
Proof.
  split; [| apply elements_map_Some].
  apply Forall_forall; intros u (imgSrc & _ & ->)%imageUrls_C_entries.
  split; [apply normalised_is_absolute | apply before_first_lacks_char].
Qed.

(** ** Progress messages *)

Lemma progress_app (l t : list Event) : progress (l ++ t) = progress l ++ progress t.
Proof.
  induction l as [| e l IH]; [reflexivity |].
  destruct e as [| | | | | | | | | | m | |]; cbn; rewrite ?IH; try reflexivity.
  destruct m; cbn; now rewrite ?IH.
Qed.

Lemma progress_neutral (l : list Event) : forallb neutral l = true -> progress l = [].
Proof.
  induction l as [| e l IH]; [reflexivity |].
  cbn [forallb]; intros [He Hl]%andb_prop.
  destruct e as [| | | | | | | | | | m | |]; try discriminate He; cbn; auto.
  destruct m; try discriminate He; cbn; auto.
Qed.

Lemma map_fst_combine {A B : Type} (l : list A) :
  forall l' : list B, List.length l = List.length l' -> map fst (combine l l') = l.
Proof.
  induction l as [| x l IH]; intros [| y l'] H; try discriminate H; [reflexivity |].
  cbn; f_equal; apply IH; now injection H.
Qed.

Lemma map_snd_combine {A B : Type} (l : list A) :
  forall l' : list B, List.length l = List.length l' -> map snd (combine l l') = l'.
Proof.
  induction l as [| x l IH]; intros [| y l'] H; try discriminate H; [reflexivity |].
  cbn; f_equal; apply IH; now injection H.
Qed.

Section Progress.

Variable array_length_of : string -> option nat.
Variable page : nat -> string -> Response.

Lemma maybe_recycle_progress (c : bool) :
  progress (if c then [Console Restarting; BrowserClose; BrowserLaunch true; NewPage;
                       SetUserAgent; SetExtraHTTPHeaders; EvaluateOnNewDocument]
            else []) = [].
Proof. now destruct c. Qed.

Lemma main_loop_A_progress (total : nat) (productLinks : list Target) :
  forall i scrapedData failedLinks n,
    progress (events_of (main_loop_A array_length_of page total i productLinks
                           scrapedData failedLinks n))
    = map (fun it => (fst it + 1, total, product_link (snd it)))
        (combine (seq i (List.length productLinks)) productLinks).
Proof.
  induction productLinks as [| target rest IH]; intros i sd fl n; [reflexivity |].
  cbn [main_loop_A List.length seq combine map fst snd]; autorewrite with run.
  rewrite !progress_app, maybe_recycle_progress.
  rewrite (progress_neutral (events_of (scrapeProduct_A _ _ _ _)))
    by (unfold scrapeProduct_A; apply attempts_loop_neutral).
  cbn [events_of emit delay snd progress app]; f_equal.
  replace (i + 1) with (S i) by lia.
  destruct (value_of (scrapeProduct_A _ _ _ _)); [apply IH |].
  autorewrite with run; rewrite progress_app; apply IH.
Qed.

Lemma main_loop_D_progress (total : nat) (productLinks : list Target) :
  forall i scrapedData failedLinks n,
    progress (events_of (main_loop_D page total i productLinks scrapedData failedLinks n))
    = map (fun it => (fst it + 1, total, product_link (snd it)))
        (combine (seq i (List.length productLinks)) productLinks).
Proof.
  induction productLinks as [| target rest IH]; intros i sd fl n; [reflexivity |].
  cbn [main_loop_D List.length seq combine map fst snd]; autorewrite with run.
  rewrite !progress_app, maybe_recycle_progress.
  rewrite (progress_neutral (events_of (scrapeProduct_D _ _ _)))
    by (unfold scrapeProduct_D; apply attempts_loop_neutral).
  cbn [events_of emit delay snd progress app]; f_equal.
  replace (i + 1) with (S i) by lia.
  destruct (value_of (scrapeProduct_D _ _ _)); [apply IH |].
  autorewrite with run; rewrite progress_app; apply IH.
Qed.

(** A run of variants A and D announces every target once, in input
    order, with its position counted from 1 and the number of targets. *)
Theorem progress_follows_the_input (date : string) (productLinks : list Target) (n : nat) :
  let announced :=
    map (fun it => (fst it + 1, List.length productLinks, product_link (snd it)))
      (combine (seq 0 (List.length productLinks)) productLinks) in
  progress (events_of (main_A array_length_of page date productLinks n)) = announced
  /\ progress (events_of (main_D page date productLinks n)) = announced
  /\ map (fun a => snd a) announced = map product_link productLinks
  /\ map (fun a => fst (fst a)) announced = seq 1 (List.length productLinks).
Proof.
  cbv zeta; unfold main_A, main_D; autorewrite with run.
  rewrite !progress_app, main_loop_A_progress, main_loop_D_progress.
  assert (Hsave : forall sd fl m, progress (events_of (save_A date sd fl m)) = [])
    by (intros sd [| u fl] m; reflexivity).
  assert (HsaveD : forall sd fl m, progress (events_of (save_D date sd fl m)) = [])
    by (intros sd [| u fl] m; reflexivity).
  rewrite Hsave, HsaveD; cbn [events_of open_session emits emit ret snd progress app].
  rewrite !app_nil_r; repeat split.
  - rewrite map_map; cbn [snd].
    rewrite <- (map_map snd product_link), map_snd_combine by apply length_seq.
    reflexivity.
  - rewrite map_map; cbn [fst].
    rewrite <- (map_map fst (fun i => i + 1)), map_fst_combine by apply length_seq.
    rewrite <- seq_shift; apply map_ext; intros; lia.
Qed.

End Progress.

(** * Further runs on sample pages *)

Lemma variant_C_failure_witness :
  is_rendered (always_timeout 0 product_url) = false
  /\ value_of (scrapeProduct_C decimal_length always_timeout logs_writable run_date
                product_url 0) = Fulfilled None
  /\ value_of (scrapeProduct_C decimal_length always_timeout logs_missing run_date
                product_url 0) = Rejected "ENOENT: no such file or directory"
  /\ appended (events_of (scrapeProduct_C decimal_length always_timeout logs_missing
                            run_date product_url 0)) = [].
Proof.
  split; [reflexivity |].
  destruct (variant_C_failure_is_logged decimal_length always_timeout logs_writable run_date
              {| product_link := product_url |} 0 eq_refl) as (_ & Hlogged & _).
  destruct (variant_C_failure_is_logged decimal_length always_timeout logs_missing run_date
              {| product_link := product_url |} 0 eq_refl) as (_ & _ & Hthrown & _).
  split; [exact (proj1 (Hlogged eq_refl)) |].
  exact (Hthrown "ENOENT: no such file or directory" eq_refl).
Defined.


Lemma sections_witness :
  oem_reference (extract_A decimal_length oem_page)
  = fill [] (section_rows OemReference (tables oem_page)).
Proof.
  apply (sections_collect_two_cell_rows decimal_length oem_page OemReference).
  intros rows [<- | []]; reflexivity.
Defined.

Lemma variant_D_sections_witness :
  oem_reference_D (extract_D oem_page)
  = or_empty (createTableHTML pristine (fill [] (section_rows_D OemReference (tables oem_page)))).
Proof.
  apply (variant_D_sections oem_page).
  intros rows [<- | []]; reflexivity.
Defined.

Lemma id_witness : id_of_url product_url = Some "filter-100".
Proof.
  apply (id_is_the_segment_after_the_marker "https://shop.example" "filter-100");
    reflexivity.
Defined.
